(** * SpaceX launch-records dashboard: the two chart callbacks

    A shallow embedding of [spacex-dash-app.py].  The data frame read at
    start-up is a list of rows; the pandas operations the callbacks use
    (boolean-mask selection, [groupby(...).size()], [value_counts()],
    [unique()], [min()]/[max()]) are list functions; a plotly figure is a
    record holding the trace arrays and the layout strings the code sets.

    Payload masses are finite floating-point numbers in the CSV; they are
    only ever compared, so they are embedded as rationals ([Q]) and compared
    with [Qle_bool]. *)

From Stdlib Require Import String Ascii List Bool Arith ZArith QArith Lia.
From Stdlib Require Import Permutation Finite Sorted.
Import ListNotations.

Close Scope Q_scope.
Open Scope string_scope.

(** ** Generic pandas-like operations on columns *)

Module Pandas.

Section Sorting.
Context {A : Type}.
Variable leb : A -> A -> bool.

(** Insertion of [x] in a list ordered by [leb], after the elements that
    are [leb] it (so that sorting is stable). *)
Fixpoint insert_by (x : A) (l : list A) : list A :=
  match l with
  | [] => [x]
  | y :: tl => if leb y x then y :: insert_by x tl else x :: y :: tl
  end.

Definition sort_by (l : list A) : list A :=
  fold_right insert_by [] (rev l).
End Sorting.

Section Columns.
Context {A : Type}.
Variable eq_dec : forall x y : A, {x = y} + {x <> y}.

(** [Series.unique()]: the distinct values, in order of first appearance. *)
Fixpoint unique (l : list A) : list A :=
  match l with
  | [] => []
  | x :: tl => x :: filter (fun y => if eq_dec x y then false else true) (unique tl)
  end.

(** Number of rows of a column holding the value [k]. *)
Definition size_of (k : A) (col : list A) : nat := count_occ eq_dec col k.

(** [groupby(key).size()]: one row per distinct key with the size of its
    group; pandas sorts the group keys ([sort=True] is the default), here
    with the order [key_leb]. *)
Definition groupby_size (key_leb : A -> A -> bool) (col : list A) : list (A * nat) :=
  map (fun k => (k, size_of k col)) (sort_by key_leb (unique col)).

(** [Series.value_counts()]: one row per distinct value with its number of
    occurrences, most frequent first.  Values that are equally frequent
    are left in order of first appearance. *)
Definition value_counts (col : list A) : list (A * nat) :=
  sort_by (fun a b => snd b <=? snd a)%nat
          (map (fun k => (k, size_of k col)) (unique col)).
End Columns.

End Pandas.

(** ** The data set *)

(** One launch record: the columns of [spacex_launch_dash.csv] that the
    application reads.  [class_] is the column named [class] (1 for a
    successful landing, 0 for a failed one); it is an integer column and the
    code compares it with [1] and maps it through [{1: .., 0: ..}]. *)
Record Row := mkRow {
  launch_site : string;              (* 'Launch Site' *)
  payload_mass : Q;                  (* 'Payload Mass (kg)' *)
  class_ : Z;                        (* 'class' *)
  booster_version_category : string  (* 'Booster Version Category' *)
}.

Definition DataFrame := list Row.

(** [Series.min()] and [Series.max()]; [None] stands for the [NaN] pandas
    returns on an empty column. *)
Fixpoint col_min (col : list Q) : option Q :=
  match col with
  | [] => None
  | x :: tl =>
      match col_min tl with
      | None => Some x
      | Some m => Some (if Qle_bool x m then x else m)
      end
  end.

Fixpoint col_max (col : list Q) : option Q :=
  match col with
  | [] => None
  | x :: tl =>
      match col_max tl with
      | None => Some x
      | Some m => Some (if Qle_bool m x then x else m)
      end
  end.

(** The module-level variables set once when the script starts
    (lines 10-12). *)
Record Globals := mkGlobals {
  spacex_df : DataFrame;
  max_payload : option Q;
  min_payload : option Q
}.

(** Start-up: [rows] is what [pd.read_csv] parsed from the file. *)
Definition startup (rows : DataFrame) : Globals :=
  {| spacex_df := rows;
     max_payload := col_max (map payload_mass rows);
     min_payload := col_min (map payload_mass rows) |}.

(** ** The page layout (lines 18-67): the two controls *)

Record DropdownOption := mkOption { opt_label : string; opt_value : string }.

Record Dropdown := mkDropdown {
  dd_id : string;
  dd_options : list DropdownOption;
  dd_value : string;
  dd_placeholder : string;
  dd_searchable : bool
}.

Record RangeSlider := mkRangeSlider {
  rs_id : string;
  rs_min : Q;
  rs_max : Q;
  rs_step : Q;
  rs_marks : list Z;
  rs_value : list (option Q);
  rs_pushable : Q;
  rs_allowCross : bool
}.

Record Layout := mkLayout {
  site_dropdown : Dropdown;
  pie_graph_id : string;
  payload_slider : RangeSlider;
  scatter_graph_id : string
}.

Definition ALL : string := "ALL".

Definition layout (g : Globals) : Layout :=
  {| site_dropdown :=
       {| dd_id := "site-dropdown";
          dd_options :=
            [ {| opt_label := "All Sites"; opt_value := ALL |} ] ++
            map (fun site => {| opt_label := site; opt_value := site |})
                (Pandas.unique string_dec (map launch_site (spacex_df g)));
          dd_value := ALL;
          dd_placeholder := "Select a Launch Site here";
          dd_searchable := true |};
     pie_graph_id := "success-pie-chart";
     payload_slider :=
       {| rs_id := "payload-slider";
          rs_min := 0;
          rs_max := 10000;
          rs_step := 1000;
          rs_marks := [0; 2500; 5000; 7500; 10000]%Z;
          rs_value := [min_payload g; max_payload g];
          rs_pushable := 500;
          rs_allowCross := false |};
     scatter_graph_id := "success-payload-scatter-chart" |}.

(** ** Figures *)

(** What [px.pie(frame, values=.., names=.., title=..)] builds: one pie
    trace whose [labels] and [values] arrays are the two columns of the
    frame, row by row, and a title.  A label is [None] where the names
    column holds [NaN]. *)
Record PieFigure := mkPie {
  pie_labels : list (option string);
  pie_values : list nat;
  pie_title : string
}.

Definition px_pie (frame : list (option string * nat)) (title : string) : PieFigure :=
  {| pie_labels := map fst frame;
     pie_values := map snd frame;
     pie_title := title |}.

(** The categories of a pie figure: each label with its value. *)
Definition pie_slices (fig : PieFigure) : list (option string * nat) :=
  combine (pie_labels fig) (pie_values fig).

(** One scatter trace: parallel arrays [x], [y] and (when [hover_data] is
    given) [customdata]. *)
Record ScatterTrace := mkTrace {
  tr_name : string;
  tr_x : list Q;
  tr_y : list Z;
  tr_customdata : list (list string)
}.

Record ScatterFigure := mkScatter {
  sc_traces : list ScatterTrace;
  sc_title : string;
  sc_xaxis_title : string;
  sc_yaxis_title : string;
  sc_legend_title : string;
  sc_tickvals : list Z;
  sc_ticktext : list string
}.

(** [px.scatter(frame, x='Payload Mass (kg)', y='class',
    color='Booster Version Category', title=.., labels=.., hover_data=..)]:
    one trace per booster category, in order of first appearance, holding
    the rows of that category. *)
Definition px_scatter (frame : DataFrame) (title : string)
    (hover_data : list (Row -> string)) : ScatterFigure :=
  {| sc_traces :=
       map (fun cat =>
              let grp := filter (fun r => booster_version_category r =? cat) frame in
              {| tr_name := cat;
                 tr_x := map payload_mass grp;
                 tr_y := map class_ grp;
                 tr_customdata :=
                   match hover_data with
                   | [] => []
                   | _ => map (fun r => map (fun col => col r) hover_data) grp
                   end |})
           (Pandas.unique string_dec (map booster_version_category frame));
     sc_title := title;
     sc_xaxis_title := "Payload Mass (kg)";
     sc_yaxis_title := "Launch Outcome";
     sc_legend_title := "Booster Version Category";
     sc_tickvals := [];
     sc_ticktext := [] |}.

Definition update_yaxes (fig : ScatterFigure) (tickvals : list Z)
    (ticktext : list string) : ScatterFigure :=
  {| sc_traces := sc_traces fig;
     sc_title := sc_title fig;
     sc_xaxis_title := sc_xaxis_title fig;
     sc_yaxis_title := sc_yaxis_title fig;
     sc_legend_title := sc_legend_title fig;
     sc_tickvals := tickvals;
     sc_ticktext := ticktext |}.

Definition update_layout (fig : ScatterFigure)
    (xaxis_title yaxis_title legend_title : string) : ScatterFigure :=
  {| sc_traces := sc_traces fig;
     sc_title := sc_title fig;
     sc_xaxis_title := xaxis_title;
     sc_yaxis_title := yaxis_title;
     sc_legend_title := legend_title;
     sc_tickvals := sc_tickvals fig;
     sc_ticktext := sc_ticktext fig |}.

(** The points a scatter figure draws: the [(x, y)] pairs of all traces. *)
Definition scatter_points (fig : ScatterFigure) : list (Q * Z) :=
  flat_map (fun t => combine (tr_x t) (tr_y t)) (sc_traces fig).

(** ** The callbacks *)

Inductive Exception := ValueError.

Inductive Result (A : Type) :=
| Ok (a : A)
| Raise (e : Exception).
Arguments Ok {A} a.
Arguments Raise {A} e.

(** [counts['class'].map({1: 'Success', 0: 'Failure'})]: a value that is not
    a key of the dictionary becomes [NaN]. *)
Definition class_label (c : Z) : option string :=
  if (c =? 1)%Z then Some "Success"
  else if (c =? 0)%Z then Some "Failure"
  else None.

(** [update_pie_chart] (lines 75-87). *)
Definition update_pie_chart (g : Globals) (selected_site : string) : PieFigure :=
  if selected_site =? ALL then
    let success_counts :=
      Pandas.groupby_size string_dec String.leb
        (map launch_site (filter (fun r => (class_ r =? 1)%Z) (spacex_df g))) in
    px_pie (map (fun kv => (Some (fst kv), snd kv)) success_counts)
           "Total Successful Launches by Site"
  else
    let filtered_df := filter (fun r => launch_site r =? selected_site) (spacex_df g) in
    let counts := Pandas.value_counts Z.eq_dec (map class_ filtered_df) in
    let counts := map (fun kv => (class_label (fst kv), snd kv)) counts in
    px_pie counts ("Success vs Failure for site " ++ selected_site).

(** [update_scatter_chart] (lines 96-145).  [low, high = payload_range]
    raises [ValueError] unless the range has exactly two elements. *)
Definition update_scatter_chart (g : Globals) (selected_site : string)
    (payload_range : list Q) : Result ScatterFigure :=
  match payload_range with
  | [low; high] =>
      let filtered_df :=
        filter (fun r => Qle_bool low (payload_mass r) && Qle_bool (payload_mass r) high)
               (spacex_df g) in
      let fig :=
        if selected_site =? ALL then
          px_scatter filtered_df
                     "Correlation between Payload and Success for all Sites"
                     [launch_site]
        else
          let site_filtered_df :=
            filter (fun r => launch_site r =? selected_site) filtered_df in
          px_scatter site_filtered_df
                     ("Correlation between Payload and Success for site " ++ selected_site)
                     [] in
      let fig := update_yaxes fig [0; 1]%Z ["Failure"; "Success"] in
      let fig := update_layout fig "Payload Mass (kg)" "Launch Outcome" "Booster Version" in
      Ok fig
  | _ => Raise ValueError
  end.

(** ** The callbacks as the UI runtime drives them

    The runtime calls one of the two callbacks whenever a control changes.
    Both read the module-level [spacex_df]; neither assigns to a global nor
    modifies the frame in place (each selection builds a new frame, and the
    only in-place updates, [counts.columns] and [counts['class']], are on the
    local [counts]).  A call therefore hands the globals on unchanged; that
    the in-place updates never reach the data set is proved on the store
    model below. *)
Module Runtime.

Inductive Call :=
| PieCall (selected_site : string)
| ScatterCall (selected_site : string) (payload_range : list Q).

Inductive Reply :=
| PieReply (fig : PieFigure)
| ScatterReply (res : Result ScatterFigure).

Definition invoke (g : Globals) (c : Call) : Reply * Globals :=
  match c with
  | PieCall site => (PieReply (update_pie_chart g site), g)
  | ScatterCall site range => (ScatterReply (update_scatter_chart g site range), g)
  end.

End Runtime.

(** ** The callbacks on a store of mutable objects

    Frames and figures are Python objects: a selection [df[mask]] builds a
    new frame, [counts.columns = ..] and [counts['class'] = ..] change the
    frame [counts] in place, and [fig.update_yaxes] / [fig.update_layout]
    change the figure in place.  Here the callbacks are written statement by
    statement over a heap of objects addressed by references, with the
    data set read at start-up as the object the global [spacex_df] refers
    to.  What a call leaves unchanged is then something to prove. *)
Module Store.

(** A cell of a frame: an integer, a number, a string or [NaN]. *)
Inductive Cell := IntCell (z : Z) | NumCell (q : Q) | StrCell (s : string) | NaNCell.

(** The named columns of a frame. *)
Definition Table := list (string * list Cell).

(** The columns of a frame that has the rows of the file. *)
Definition frame_columns (rows : DataFrame) : Table :=
  [ ("Launch Site", map (fun r => StrCell (launch_site r)) rows);
    ("Payload Mass (kg)", map (fun r => NumCell (payload_mass r)) rows);
    ("class", map (fun r => IntCell (class_ r)) rows);
    ("Booster Version Category",
     map (fun r => StrCell (booster_version_category r)) rows) ].

(** A pie figure object: the [labels] and [values] arrays and the title. *)
Record PieObject := mkPieObject {
  po_labels : list Cell;
  po_values : list Cell;
  po_title : string
}.

Inductive Obj :=
| FileFrame (rows : DataFrame)      (* a frame with the columns of the file *)
| DerivedFrame (cols : Table)       (* any other frame, by its columns *)
| PieFig (fig : PieObject)
| ScatterFig (fig : ScatterFigure).

(** The heap: the objects alive, addressed by position. *)
Definition Heap := list Obj.

(** [Err_TypeError] stands for whatever Python raises when a frame
    operation is applied to a figure or a figure operation to a frame,
    [Err_Unbound] for a reference to no object. *)
Inductive Error := Err_ValueError | Err_KeyError | Err_TypeError | Err_Unbound.

Inductive Outcome (A : Type) :=
| Return (a : A)
| Throw (e : Error).
Arguments Return {A} a.
Arguments Throw {A} e.

(** Computations on the heap; what was written before an exception stays
    written. *)
Definition M (A : Type) : Type := Heap -> Outcome A * Heap.

Definition ret {A : Type} (a : A) : M A := fun h => (Return a, h).

Definition throw {A : Type} (e : Error) : M A := fun h => (Throw e, h).

Definition bind {A B : Type} (m : M A) (k : A -> M B) : M B :=
  fun h =>
    match m h with
    | (Return a, h1) => k a h1
    | (Throw e, h1) => (Throw e, h1)
    end.

Notation "x <- m ;; k" := (bind m (fun x => k))
  (at level 61, m at next level, right associativity).

Fixpoint replace_nth {A : Type} (n : nat) (a : A) (l : list A) : list A :=
  match l, n with
  | [], _ => []
  | _ :: tl, O => a :: tl
  | x :: tl, S n' => x :: replace_nth n' a tl
  end.

(** *** Objects: creation, reading, update in place *)

Definition alloc (o : Obj) : M nat :=
  fun h => (Return (List.length h), (h ++ [o])%list).

Definition load (r : nat) : M Obj :=
  fun h => match nth_error h r with
           | Some o => (Return o, h)
           | None => (Throw Err_Unbound, h)
           end.

Definition store (r : nat) (o : Obj) : M unit :=
  fun h => if (r <? List.length h)%nat
           then (Return tt, replace_nth r o h)
           else (Throw Err_Unbound, h).

(** The rows of a frame, for the masks and groupings that read the columns
    of the file; a frame that does not have these columns gives
    [KeyError]. *)
Definition get_frame (r : nat) : M DataFrame :=
  o <- load r ;;
  match o with
  | FileFrame rows => ret rows
  | DerivedFrame _ => throw Err_KeyError
  | _ => throw Err_TypeError
  end.

(** The columns of a frame. *)
Definition get_table (r : nat) : M Table :=
  o <- load r ;;
  match o with
  | FileFrame rows => ret (frame_columns rows)
  | DerivedFrame cols => ret cols
  | _ => throw Err_TypeError
  end.

Definition get_pie (r : nat) : M PieObject :=
  o <- load r ;;
  match o with
  | PieFig fig => ret fig
  | _ => throw Err_TypeError
  end.

Definition get_scatter (r : nat) : M ScatterFigure :=
  o <- load r ;;
  match o with
  | ScatterFig fig => ret fig
  | _ => throw Err_TypeError
  end.

(** *** The pandas and plotly calls of the callbacks *)

Definition count_cell (n : nat) : Cell := IntCell (Z.of_nat n).

(** [df[mask]]: a new frame with the rows the mask keeps. *)
Definition select_rows (df : nat) (mask : Row -> bool) : M nat :=
  rows <- get_frame df ;;
  alloc (FileFrame (filter mask rows)).

(** [df.groupby('Launch Site').size().reset_index(name=..)]: a new frame
    with the columns ['Launch Site', name]. *)
Definition groupby_site_size (df : nat) (name : string) : M nat :=
  rows <- get_frame df ;;
  let sizes := Pandas.groupby_size string_dec String.leb (map launch_site rows) in
  alloc (DerivedFrame
           [ ("Launch Site", map (fun kv => StrCell (fst kv)) sizes);
             (name, map (fun kv => count_cell (snd kv)) sizes) ]).

(** [df['class'].value_counts().reset_index()]: a new frame with two
    columns, the values and their counts.  How [reset_index] names the two
    columns depends on the pandas release (['class', 'count'] or
    ['index', 'class']); [names] is that pair. *)
Definition class_value_counts (names : string * string) (df : nat) : M nat :=
  rows <- get_frame df ;;
  let counts := Pandas.value_counts Z.eq_dec (map class_ rows) in
  alloc (DerivedFrame
           [ (fst names, map (fun kv => IntCell (fst kv)) counts);
             (snd names, map (fun kv => count_cell (snd kv)) counts) ]).

(** [t.columns = names]: renames the columns of [t] in place. *)
Definition set_columns (t : nat) (names : list string) : M unit :=
  cols <- get_table t ;;
  if (List.length names =? List.length cols)%nat
  then store t (DerivedFrame (combine names (map snd cols)))
  else throw Err_ValueError.

Fixpoint lookup (name : string) (cols : Table) : option (list Cell) :=
  match cols with
  | [] => None
  | (n, col) :: tl => if n =? name then Some col else lookup name tl
  end.

Fixpoint set_col (name : string) (col : list Cell) (cols : Table) : Table :=
  match cols with
  | [] => [(name, col)]
  | (n, c) :: tl => if n =? name then (n, col) :: tl else (n, c) :: set_col name col tl
  end.

(** [t[name]]. *)
Definition get_item (t : nat) (name : string) : M (list Cell) :=
  cols <- get_table t ;;
  match lookup name cols with
  | Some col => ret col
  | None => throw Err_KeyError
  end.

(** [t[name] = col]: replaces (or adds) a column of [t] in place. *)
Definition set_item (t : nat) (name : string) (col : list Cell) : M unit :=
  cols <- get_table t ;;
  store t (DerivedFrame (set_col name col cols)).

(** [Series.map({1: 'Success', 0: 'Failure'})] on one cell (a number
    equal to a key finds it, as [1.0] finds [1] in a Python dictionary). *)
Definition map_outcome (c : Cell) : Cell :=
  match c with
  | IntCell 1 => StrCell "Success"
  | IntCell 0 => StrCell "Failure"
  | NumCell q =>
      if Qeq_bool q 1 then StrCell "Success"
      else if Qeq_bool q 0 then StrCell "Failure"
      else NaNCell
  | _ => NaNCell
  end.

(** [px.pie(t, values=.., names=.., title=..)]: a new figure. *)
Definition px_pie (t : nat) (values names title : string) : M nat :=
  cols <- get_table t ;;
  match lookup names cols, lookup values cols with
  | Some ls, Some vs =>
      alloc (PieFig {| po_labels := ls; po_values := vs; po_title := title |})
  | _, _ => throw Err_ValueError
  end.

(** [px.scatter(df, ..)]: a new figure. *)
Definition px_scatter (df : nat) (title : string)
    (hover_data : list (Row -> string)) : M nat :=
  rows <- get_frame df ;;
  alloc (ScatterFig (px_scatter rows title hover_data)).

(** [fig.update_yaxes(..)] and [fig.update_layout(..)]: in place. *)
Definition update_yaxes (fig : nat) (tickvals : list Z) (ticktext : list string) : M unit :=
  f <- get_scatter fig ;;
  store fig (ScatterFig (update_yaxes f tickvals ticktext)).

Definition update_layout (fig : nat)
    (xaxis_title yaxis_title legend_title : string) : M unit :=
  f <- get_scatter fig ;;
  store fig (ScatterFig (update_layout f xaxis_title yaxis_title legend_title)).

(** *** The module-level state and the two callbacks *)

Record Env := mkEnv {
  spacex_df : nat;                          (* the global [spacex_df] *)
  reset_index_names : string * string       (* see [class_value_counts] *)
}.

(** [update_pie_chart] (lines 75-87); the result refers to the figure. *)
Definition update_pie_chart (env : Env) (selected_site : string) : M nat :=
  if selected_site =? ALL then
    successes <- select_rows (spacex_df env) (fun r => (class_ r =? 1)%Z) ;;
    success_counts <- groupby_site_size successes "successes" ;;
    px_pie success_counts "successes" "Launch Site"
           "Total Successful Launches by Site"
  else
    filtered_df <- select_rows (spacex_df env)
                               (fun r => launch_site r =? selected_site) ;;
    counts <- class_value_counts (reset_index_names env) filtered_df ;;
    _ <- set_columns counts ["class"; "count"] ;;
    classes <- get_item counts "class" ;;
    _ <- set_item counts "class" (map map_outcome classes) ;;
    px_pie counts "count" "class" ("Success vs Failure for site " ++ selected_site).

(** [update_scatter_chart] (lines 96-145). *)
Definition update_scatter_chart (env : Env) (selected_site : string)
    (payload_range : list Q) : M nat :=
  match payload_range with
  | [low; high] =>
      filtered_df <-
        select_rows (spacex_df env)
          (fun r => Qle_bool low (payload_mass r) && Qle_bool (payload_mass r) high) ;;
      fig <-
        (if selected_site =? ALL then
           px_scatter filtered_df
                      "Correlation between Payload and Success for all Sites"
                      [launch_site]
         else
           site_filtered_df <-
             select_rows filtered_df (fun r => launch_site r =? selected_site) ;;
           px_scatter site_filtered_df
                      ("Correlation between Payload and Success for site "
                         ++ selected_site)
                      []) ;;
      _ <- update_yaxes fig [0; 1]%Z ["Failure"; "Success"] ;;
      _ <- update_layout fig "Payload Mass (kg)" "Launch Outcome" "Booster Version" ;;
      ret fig
  | _ => throw Err_ValueError
  end.

(** *** A session *)

(** What the runtime gets from a call: the figure object the callback
    returned, as it is when the call returns. *)
Definition respond (env : Env) (c : Runtime.Call) : M Obj :=
  match c with
  | Runtime.PieCall site =>
      fig <- update_pie_chart env site ;;
      o <- get_pie fig ;;
      ret (PieFig o)
  | Runtime.ScatterCall site payload_range =>
      fig <- update_scatter_chart env site payload_range ;;
      o <- get_scatter fig ;;
      ret (ScatterFig o)
  end.

(** The calls of a session run one after the other on the same heap; an
    exception ends the call that raised it, not the session. *)
Fixpoint serve (env : Env) (calls : list Runtime.Call) (h : Heap)
    : list (Outcome Obj) * Heap :=
  match calls with
  | [] => ([], h)
  | c :: rest =>
      let (a, h1) := respond env c h in
      let (answers, h2) := serve env rest h1 in
      (a :: answers, h2)
  end.

(** Start-up: the heap holds the frame read from the file, and [spacex_df]
    refers to it. *)
Definition startup (names : string * string) (rows : DataFrame) : Env * Heap :=
  ({| spacex_df := 0; reset_index_names := names |}, [FileFrame rows]).

(** [h'] has every object of [h], unchanged, at the same reference. *)
Definition extends (h h' : Heap) : Prop := exists l, h' = (h ++ l)%list.

End Store.

(** A figure of the callbacks of the first part, as the object the store
    holds for it. *)
Definition label_cell (l : option string) : Store.Cell :=
  match l with
  | Some s => Store.StrCell s
  | None => Store.NaNCell
  end.

Definition pie_object (fig : PieFigure) : Store.PieObject :=
  {| Store.po_labels := map label_cell (pie_labels fig);
     Store.po_values := map Store.count_cell (pie_values fig);
     Store.po_title := pie_title fig |}.

(** The answer to a call computed from the rows alone. *)
Definition answer_of (g : Globals) (c : Runtime.Call) : Store.Outcome Store.Obj :=
  match c with
  | Runtime.PieCall site =>
      Store.Return (Store.PieFig (pie_object (update_pie_chart g site)))
  | Runtime.ScatterCall site payload_range =>
      match update_scatter_chart g site payload_range with
      | Ok fig => Store.Return (Store.ScatterFig fig)
      | Raise ValueError => Store.Throw Store.Err_ValueError
      end
  end.

(** ** A small data set used in the examples *)

Definition sample_rows : DataFrame :=
  [ mkRow "A" 500 1 "v1.0";
    mkRow "A" 9000 0 "FT";
    mkRow "B" 3000 1 "v1.0";
    mkRow "C" 4000 0 "B4" ].

Definition sample : Globals := startup sample_rows.

(** Three records: two launches from "A", one from "B". *)
Definition three_rows : DataFrame :=
  [ mkRow "A" 500 1 "v1.0";
    mkRow "A" 9000 0 "FT";
    mkRow "B" 3000 1 "v1.0" ].

(** ** Vocabulary of the statements *)

(** The point a row is drawn as: x is the payload mass, y the outcome. *)
Definition point_of (r : Row) : Q * Z := (payload_mass r, class_ r).

(** The payload mass of [r] lies in the closed interval [[low, high]]. *)
Definition in_range (low high : Q) (r : Row) : Prop :=
  (low <= payload_mass r)%Q /\ (payload_mass r <= high)%Q.

(** [r] passes the site filter of the selection [site]: every row does when
    the selection is the sentinel, otherwise the rows of that site do. *)
Definition site_selects (site : string) (r : Row) : Prop :=
  site = ALL \/ launch_site r = site.

(** The same two tests as one boolean, for counting rows. *)
Definition passes (site : string) (low high : Q) (r : Row) : bool :=
  Qle_bool low (payload_mass r) && Qle_bool (payload_mass r) high &&
  ((site =? ALL) || (launch_site r =? site)).

(** [p] is a point of the scatter chart returned for a selection. *)
Definition drawn (g : Globals) (site : string) (payload_range : list Q)
    (p : Q * Z) : Prop :=
  exists fig,
    update_scatter_chart g site payload_range = Ok fig /\ In p (scatter_points fig).

(** The launch sites occurring in the data set. *)
Definition sites (g : Globals) : list string := map launch_site (spacex_df g).

Definition is_success (r : Row) : bool := (class_ r =? 1)%Z.
Definition is_failure (r : Row) : bool := (class_ r =? 0)%Z.
Definition at_site (site : string) (r : Row) : bool := launch_site r =? site.

(** Number of rows satisfying a test. *)
Definition count_rows (f : Row -> bool) (df : DataFrame) : nat :=
  List.length (filter f df).

(** The points of the chart a call returned; a call that raised drew none. *)
Definition points_of (res : Result ScatterFigure) : list (Q * Z) :=
  match res with
  | Ok fig => scatter_points fig
  | Raise _ => []
  end.

(** The rows a trace of the chart for a selection holds: the rows passing
    the payload and site tests whose booster category names the trace. *)
Definition trace_rows (g : Globals) (site : string) (low high : Q)
    (t : ScatterTrace) : DataFrame :=
  filter (fun r => passes site low high r &&
                   (booster_version_category r =? tr_name t))
         (spacex_df g).

(** ** Callback registration and dispatch (lines 71-74 and 91-95)

    [@app.callback(Output(graph, 'figure'), Input(control, 'value'), ...)]
    registers a function on the [value] of some controls.  The runtime calls
    every registered callback once when the page loads, and afterwards calls
    the callbacks that list the control that changed among their inputs,
    with the current values of all their inputs; the result replaces the
    [figure] of the output graph. *)
Module Dash.

Record Controls := mkControls {
  site_value : string;       (* value of 'site-dropdown' *)
  range_value : list Q       (* value of 'payload-slider' *)
}.

Record Registration := mkRegistration {
  reg_output : string;
  reg_inputs : list string;
  reg_call : Controls -> Runtime.Call
}.

Definition callbacks : list Registration :=
  [ {| reg_output := "success-pie-chart";
       reg_inputs := ["site-dropdown"];
       reg_call := fun c => Runtime.PieCall (site_value c) |};
    {| reg_output := "success-payload-scatter-chart";
       reg_inputs := ["site-dropdown"; "payload-slider"];
       reg_call := fun c => Runtime.ScatterCall (site_value c) (range_value c) |} ].

Inductive UserEvent :=
| SelectSite (site : string)
| MoveSlider (payload_range : list Q).

Definition changed_id (ev : UserEvent) : string :=
  match ev with
  | SelectSite _ => "site-dropdown"
  | MoveSlider _ => "payload-slider"
  end.

Definition set_control (ev : UserEvent) (c : Controls) : Controls :=
  match ev with
  | SelectSite site => {| site_value := site; range_value := range_value c |}
  | MoveSlider payload_range =>
      {| site_value := site_value c; range_value := payload_range |}
  end.

(** The figure shown in each graph, by component id. *)
Definition Graphs := string -> option Runtime.Reply.

Definition set_graph (id : string) (fig : Runtime.Reply) (shown : Graphs) : Graphs :=
  fun id' => if id' =? id then Some fig else shown id'.

Definition listens (id : string) (reg : Registration) : bool :=
  existsb (String.eqb id) (reg_inputs reg).

Definition raised (r : Runtime.Reply) : bool :=
  match r with
  | Runtime.ScatterReply (Raise _) => true
  | _ => false
  end.

(** Run the given callbacks on the current control values.  A callback that
    raises leaves its output graph as it was. *)
Definition fire (g : Globals) (c : Controls) (regs : list Registration)
    (shown : Graphs) : Graphs :=
  fold_left
    (fun acc reg =>
       let r := fst (Runtime.invoke g (reg_call reg c)) in
       if raised r then acc else set_graph (reg_output reg) r acc)
    regs shown.

Record Page := mkPage { controls : Controls; graphs : Graphs }.

Definition load (g : Globals) (c : Controls) : Page :=
  {| controls := c; graphs := fire g c callbacks (fun _ => None) |}.

Definition step (g : Globals) (page : Page) (ev : UserEvent) : Page :=
  let c := set_control ev (controls page) in
  {| controls := c;
     graphs := fire g c (filter (listens (changed_id ev)) callbacks) (graphs page) |}.

Definition run (g : Globals) (page : Page) (evs : list UserEvent) : Page :=
  fold_left (step g) evs page.

(** A range slider delivers its two handles. *)
Definition two_handles (ev : UserEvent) : Prop :=
  match ev with
  | SelectSite _ => True
  | MoveSlider payload_range => List.length payload_range = 2
  end.

End Dash.

(** The two graphs show what the callbacks return for the current values of
    the controls. *)
Definition in_sync (g : Globals) (page : Dash.Page) : Prop :=
  Dash.graphs page "success-pie-chart" =
    Some (Runtime.PieReply
            (update_pie_chart g (Dash.site_value (Dash.controls page)))) /\
  Dash.graphs page "success-payload-scatter-chart" =
    Some (Runtime.ScatterReply
            (update_scatter_chart g (Dash.site_value (Dash.controls page))
                                    (Dash.range_value (Dash.controls page)))).

(** * Facts about the column operations *)

Section SortingFacts.
Context {A : Type}.
Variable leb : A -> A -> bool.

Lemma insert_by_perm (x : A) (l : list A) :
  Permutation (Pandas.insert_by leb x l) (x :: l).
Proof.
  induction l as [|y tl IH]; simpl.
  - apply Permutation_refl.
  - destruct (leb y x).
    + eapply Permutation_trans; [apply perm_skip, IH | apply perm_swap].
    + apply Permutation_refl.
Qed.

Lemma fold_insert_by_perm (l : list A) :
  Permutation (fold_right (Pandas.insert_by leb) [] l) l.
Proof.
  induction l as [|x tl IH]; simpl.
  - constructor.
  - eapply Permutation_trans; [apply insert_by_perm | apply perm_skip, IH].
Qed.

Lemma sort_by_perm (l : list A) : Permutation (Pandas.sort_by leb l) l.
Proof.
  unfold Pandas.sort_by.
  eapply Permutation_trans; [apply fold_insert_by_perm |].
  apply Permutation_sym, Permutation_rev.
Qed.
End SortingFacts.

Lemma list_sum_perm (l l' : list nat) :
  Permutation l l' -> list_sum l = list_sum l'.
Proof.
  induction 1; simpl; lia.
Qed.

Lemma list_sum_map_add {A : Type} (f g : A -> nat) (l : list A) :
  list_sum (map (fun x => f x + g x) l) = list_sum (map f l) + list_sum (map g l).
Proof.
  induction l as [|x tl IH]; simpl; lia.
Qed.

Section ColumnFacts.
Context {A : Type}.
Variable eq_dec : forall x y : A, {x = y} + {x <> y}.

Lemma unique_In (x : A) (l : list A) :
  In x (Pandas.unique eq_dec l) <-> In x l.
Proof.
  induction l as [|y tl IH]; simpl; [tauto|].
  rewrite filter_In, IH.
  destruct (eq_dec y x) as [->|Hne]; split; intros H.
  - now left.
  - now left.
  - destruct H as [H|[H _]]; [now left | now right].
  - destruct H as [H|H]; [now left | right; now split].
Qed.

Lemma unique_NoDup (l : list A) : NoDup (Pandas.unique eq_dec l).
Proof.
  induction l as [|y tl IH]; simpl; constructor.
  - rewrite filter_In. intros [_ H].
    destruct (eq_dec y y); [discriminate | congruence].
  - now apply NoDup_filter.
Qed.

Lemma size_of_pos (k : A) (col : list A) :
  In k col <-> 0 < Pandas.size_of eq_dec k col.
Proof.
  unfold Pandas.size_of. apply count_occ_In.
Qed.

(** Summing an indicator of [a] over keys without repetition. *)
Lemma sum_indicator (a : A) (ks : list A) :
  NoDup ks -> In a ks ->
  list_sum (map (fun k => if eq_dec a k then 1 else 0) ks) = 1.
Proof.
  induction 1 as [|k ks Hnin Hnd IH]; simpl; [tauto|].
  intros [->|Hin].
  - destruct (eq_dec a a) as [_|Hne]; [|congruence].
    assert (Hz : list_sum (map (fun k => if eq_dec a k then 1 else 0) ks) = 0).
    { clear IH Hnd. induction ks as [|k ks IHks]; simpl; [reflexivity|].
      destruct (eq_dec a k) as [->|_].
      - exfalso. apply Hnin. now left.
      - apply IHks. intros H. apply Hnin. now right. }
    lia.
  - destruct (eq_dec a k) as [->|_]; [contradiction|].
    now apply IH.
Qed.

(** The group sizes over a repetition-free list of keys that covers the
    column add up to the length of the column. *)
Lemma sum_size_of (ks col : list A) :
  NoDup ks -> (forall x, In x col -> In x ks) ->
  list_sum (map (fun k => Pandas.size_of eq_dec k col) ks) = length col.
Proof.
  intros Hnd. unfold Pandas.size_of.
  induction col as [|a col IH]; intros Hcov.
  - clear Hnd Hcov. induction ks as [|k ks IHks]; simpl; [reflexivity | exact IHks].
  - simpl length.
    specialize (IH (fun x Hx => Hcov x (or_intror Hx))).
    pose proof (sum_indicator a ks Hnd (Hcov a (or_introl eq_refl))) as Hone.
    transitivity
      (list_sum (map (fun k => (if eq_dec a k then 1 else 0) + count_occ eq_dec col k) ks)).
    + f_equal. apply map_ext. intros k. simpl. destruct (eq_dec a k); lia.
    + rewrite list_sum_map_add, Hone. simpl. f_equal. exact IH.
Qed.

Lemma size_of_map_filter {R : Type} (f : R -> A) (k : A) (rows : list R) :
  Pandas.size_of eq_dec k (map f rows) =
  length (filter (fun r => if eq_dec (f r) k then true else false) rows).
Proof.
  unfold Pandas.size_of.
  induction rows as [|r rows IH]; simpl; [reflexivity|].
  destruct (eq_dec (f r) k); simpl; now rewrite IH.
Qed.

Lemma groupby_size_keys (key_leb : A -> A -> bool) (col : list A) :
  Permutation (map fst (Pandas.groupby_size eq_dec key_leb col))
              (Pandas.unique eq_dec col).
Proof.
  unfold Pandas.groupby_size. rewrite map_map. simpl. rewrite map_id.
  apply sort_by_perm.
Qed.

Lemma groupby_size_In (key_leb : A -> A -> bool) (col : list A) (k : A) (n : nat) :
  In (k, n) (Pandas.groupby_size eq_dec key_leb col) <->
  In k col /\ n = Pandas.size_of eq_dec k col.
Proof.
  unfold Pandas.groupby_size. rewrite in_map_iff. split.
  - intros [k' [Heq Hin]]. inversion Heq; subst.
    split; [|reflexivity].
    apply (unique_In k col).
    eapply Permutation_in; [apply sort_by_perm | exact Hin].
  - intros [Hin ->]. exists k. split; [reflexivity|].
    eapply Permutation_in; [apply Permutation_sym, sort_by_perm |].
    now apply unique_In.
Qed.

Lemma groupby_size_total (key_leb : A -> A -> bool) (col : list A) :
  list_sum (map snd (Pandas.groupby_size eq_dec key_leb col)) = length col.
Proof.
  unfold Pandas.groupby_size. rewrite map_map. simpl.
  apply sum_size_of.
  - eapply Permutation_NoDup; [apply Permutation_sym, sort_by_perm | apply unique_NoDup].
  - intros x Hx.
    eapply Permutation_in; [apply Permutation_sym, sort_by_perm |].
    now apply unique_In.
Qed.

Lemma value_counts_perm (col : list A) :
  Permutation (Pandas.value_counts eq_dec col)
              (map (fun k => (k, Pandas.size_of eq_dec k col)) (Pandas.unique eq_dec col)).
Proof.
  unfold Pandas.value_counts. apply sort_by_perm.
Qed.

Lemma value_counts_keys (col : list A) :
  Permutation (map fst (Pandas.value_counts eq_dec col)) (Pandas.unique eq_dec col).
Proof.
  eapply Permutation_trans; [apply Permutation_map, value_counts_perm |].
  rewrite map_map. simpl. rewrite map_id. apply Permutation_refl.
Qed.

Lemma value_counts_In (col : list A) (k : A) (n : nat) :
  In (k, n) (Pandas.value_counts eq_dec col) <->
  In k col /\ n = Pandas.size_of eq_dec k col.
Proof.
  split.
  - intros Hin.
    apply (Permutation_in _ (value_counts_perm col)) in Hin.
    apply in_map_iff in Hin. destruct Hin as [k' [Heq Hin]].
    inversion Heq; subst. split; [apply (unique_In k col); exact Hin | reflexivity].
  - intros [Hin ->].
    apply (Permutation_in _ (Permutation_sym (value_counts_perm col))).
    apply in_map_iff. exists k. split; [reflexivity | apply (unique_In k col); exact Hin].
Qed.

Lemma value_counts_total (col : list A) :
  list_sum (map snd (Pandas.value_counts eq_dec col)) = length col.
Proof.
  rewrite (list_sum_perm _ _ (Permutation_map snd (value_counts_perm col))).
  rewrite map_map. simpl.
  apply sum_size_of; [apply unique_NoDup | intros x; apply unique_In].
Qed.
End ColumnFacts.

(** * Facts about the figures *)

Lemma combine_map_pair {A B C : Type} (f : A -> B) (g : A -> C) (l : list A) :
  combine (map f l) (map g l) = map (fun x => (f x, g x)) l.
Proof.
  induction l as [|x tl IH]; simpl; [reflexivity | now rewrite IH].
Qed.

Lemma combine_fst_snd {A B : Type} (l : list (A * B)) :
  combine (map fst l) (map snd l) = l.
Proof.
  induction l as [|[a b] tl IH]; simpl; [reflexivity | now rewrite IH].
Qed.

Lemma flat_map_after_map {A B C : Type} (f : B -> list C) (g : A -> B) (l : list A) :
  flat_map f (map g l) = flat_map (fun x => f (g x)) l.
Proof.
  induction l as [|x tl IH]; simpl; [reflexivity | now rewrite IH].
Qed.

Lemma map_over_flat_map {A B C : Type} (f : B -> C) (g : A -> list B) (l : list A) :
  map f (flat_map g l) = flat_map (fun x => map f (g x)) l.
Proof.
  induction l as [|x tl IH]; simpl; [reflexivity|].
  now rewrite map_app, IH.
Qed.

Lemma filter_twice {A : Type} (f g : A -> bool) (l : list A) :
  filter f (filter g l) = filter (fun x => g x && f x) l.
Proof.
  induction l as [|x tl IH]; simpl; [reflexivity|].
  destruct (g x); simpl; [destruct (f x)|]; now rewrite IH.
Qed.

Lemma filter_none {A : Type} (f : A -> bool) (l : list A) :
  (forall x, In x l -> f x = false) -> filter f l = [].
Proof.
  induction l as [|x tl IH]; simpl; intros H; [reflexivity|].
  rewrite (H x (or_introl eq_refl)). apply IH. intros y Hy. apply H. now right.
Qed.

(** Splitting rows into groups by a string key, one group per key of a
    repetition-free covering list, only reorders the rows. *)
Section Grouping.
Context {R : Type}.
Variable key : R -> string.

Lemma filter_head (a : R) (rows : list R) (k : string) :
  filter (fun r => key r =? k) (a :: rows) =
  if key a =? k then a :: filter (fun r => key r =? k) rows
  else filter (fun r => key r =? k) rows.
Proof. reflexivity. Qed.

Lemma group_cons_absent (a : R) (rows : list R) (ks : list string) :
  ~ In (key a) ks ->
  flat_map (fun k => filter (fun r => key r =? k) (a :: rows)) ks =
  flat_map (fun k => filter (fun r => key r =? k) rows) ks.
Proof.
  induction ks as [|k ks IH]; intros Hnin; [reflexivity|].
  cbn [flat_map]. rewrite (filter_head a rows k).
  destruct (String.eqb_spec (key a) k) as [Heq|_].
  - exfalso. apply Hnin. now left.
  - f_equal. apply IH. intros H. apply Hnin. now right.
Qed.

Lemma group_cons_present (a : R) (rows : list R) (ks : list string) :
  NoDup ks -> In (key a) ks ->
  Permutation (flat_map (fun k => filter (fun r => key r =? k) (a :: rows)) ks)
              (a :: flat_map (fun k => filter (fun r => key r =? k) rows) ks).
Proof.
  induction 1 as [|k ks Hnin Hnd IH]; [simpl; tauto|].
  intros Hin. cbn [flat_map]. rewrite (filter_head a rows k).
  destruct (String.eqb_spec (key a) k) as [Heq|Hne].
  - subst k. rewrite group_cons_absent by exact Hnin. apply Permutation_refl.
  - destruct Hin as [Heq|Hin]; [congruence|].
    eapply Permutation_trans; [apply Permutation_app_head, IH, Hin |].
    apply Permutation_sym, Permutation_middle.
Qed.

Lemma group_rows_perm (rows : list R) (ks : list string) :
  NoDup ks -> (forall r, In r rows -> In (key r) ks) ->
  Permutation (flat_map (fun k => filter (fun r => key r =? k) rows) ks) rows.
Proof.
  intros Hnd. induction rows as [|a rows IH]; intros Hcov.
  - clear. induction ks as [|k ks IHks]; simpl; [constructor | exact IHks].
  - eapply Permutation_trans.
    + apply group_cons_present; [exact Hnd | apply Hcov; now left].
    + apply perm_skip, IH. intros r Hr. apply Hcov. now right.
Qed.
End Grouping.

(** The points of a [px.scatter] figure are the rows of its frame, one point
    per row, grouped by booster category. *)
Lemma px_scatter_points (frame : DataFrame) (title : string)
    (hover_data : list (Row -> string)) :
  Permutation (scatter_points (px_scatter frame title hover_data))
              (map point_of frame).
Proof.
  unfold scatter_points, px_scatter. simpl.
  rewrite flat_map_after_map. simpl.
  erewrite flat_map_ext by (intros cat; apply combine_map_pair).
  rewrite <- (map_over_flat_map
                (fun r => (payload_mass r, class_ r))
                (fun cat => filter (fun r => booster_version_category r =? cat) frame)).
  apply Permutation_map.
  apply (group_rows_perm booster_version_category).
  - apply unique_NoDup.
  - intros r Hr. apply unique_In. now apply in_map.
Qed.

(** * Facts about the callbacks *)

Lemma passes_iff (site : string) (low high : Q) (r : Row) :
  passes site low high r = true <-> in_range low high r /\ site_selects site r.
Proof.
  unfold passes, in_range, site_selects.
  rewrite !andb_true_iff, orb_true_iff, !Qle_bool_iff, !String.eqb_eq.
  tauto.
Qed.

(** A well-formed range never raises, and the chart draws exactly the rows
    that pass the payload and site tests, one point per row. *)
Lemma update_scatter_chart_points (g : Globals) (site : string) (low high : Q) :
  exists fig,
    update_scatter_chart g site [low; high] = Ok fig /\
    Permutation (scatter_points fig)
                (map point_of (filter (passes site low high) (spacex_df g))).
Proof.
  unfold update_scatter_chart. eexists. split; [reflexivity|].
  unfold update_layout, update_yaxes, scatter_points. simpl sc_traces.
  destruct (site =? ALL) eqn:Hall.
  - eapply Permutation_trans; [apply px_scatter_points |].
    apply Permutation_map.
    erewrite filter_ext; [apply Permutation_refl|].
    intros r. unfold passes. rewrite Hall. simpl. now rewrite andb_true_r.
  - eapply Permutation_trans; [apply px_scatter_points |].
    apply Permutation_map.
    rewrite filter_twice.
    erewrite filter_ext; [apply Permutation_refl|].
    intros r. unfold passes. rewrite Hall. reflexivity.
Qed.

Lemma drawn_iff (g : Globals) (site : string) (low high : Q) (p : Q * Z) :
  drawn g site [low; high] p <->
  exists r, In r (spacex_df g) /\ p = point_of r /\
            in_range low high r /\ site_selects site r.
Proof.
  destruct (update_scatter_chart_points g site low high) as [fig [Hok Hperm]].
  unfold drawn. split.
  - intros [fig' [Hok' Hin]].
    rewrite Hok in Hok'. inversion Hok'; subst fig'.
    apply (Permutation_in _ Hperm) in Hin.
    apply in_map_iff in Hin. destruct Hin as [r [Hp Hr]].
    apply filter_In in Hr. destruct Hr as [Hr Hpass].
    apply passes_iff in Hpass.
    exists r. split; [exact Hr|]. split; [now symmetry | exact Hpass].
  - intros [r [Hr [-> Hpass]]].
    exists fig. split; [exact Hok|].
    apply (Permutation_in _ (Permutation_sym Hperm)).
    apply in_map. apply filter_In. split; [exact Hr | now apply passes_iff].
Qed.

Lemma pie_slices_all (g : Globals) :
  pie_slices (update_pie_chart g ALL) =
  map (fun kv => (Some (fst kv), snd kv))
      (Pandas.groupby_size string_dec String.leb
         (map launch_site (filter is_success (spacex_df g)))).
Proof.
  unfold update_pie_chart, pie_slices, px_pie. simpl.
  apply combine_fst_snd.
Qed.

Lemma pie_slices_site (g : Globals) (site : string) :
  site <> ALL ->
  pie_slices (update_pie_chart g site) =
  map (fun kv => (class_label (fst kv), snd kv))
      (Pandas.value_counts Z.eq_dec
         (map class_ (filter (at_site site) (spacex_df g)))).
Proof.
  intros Hne. unfold update_pie_chart.
  apply String.eqb_neq in Hne. rewrite Hne.
  unfold pie_slices, px_pie. simpl.
  apply combine_fst_snd.
Qed.

(** Group sizes of a key column of selected rows, as row counts. *)
Lemma size_of_sites (site : string) (f : Row -> bool) (df : DataFrame) :
  Pandas.size_of string_dec site (map launch_site (filter f df)) =
  count_rows (fun r => f r && at_site site r) df.
Proof.
  rewrite size_of_map_filter, filter_twice. unfold count_rows, at_site.
  f_equal. apply filter_ext. intros r. f_equal.
  destruct (string_dec (launch_site r) site) as [->|Hne].
  - now rewrite String.eqb_refl.
  - apply String.eqb_neq in Hne. now rewrite Hne.
Qed.

Lemma size_of_classes (c : Z) (f : Row -> bool) (df : DataFrame) :
  Pandas.size_of Z.eq_dec c (map class_ (filter f df)) =
  count_rows (fun r => f r && (class_ r =? c)%Z) df.
Proof.
  rewrite size_of_map_filter, filter_twice. unfold count_rows.
  f_equal. apply filter_ext. intros r. f_equal.
  destruct (Z.eq_dec (class_ r) c) as [->|Hne].
  - now rewrite Z.eqb_refl.
  - apply Z.eqb_neq in Hne. now rewrite Hne.
Qed.

Lemma pie_labels_all (g : Globals) :
  pie_labels (update_pie_chart g ALL) =
  map Some (map fst (Pandas.groupby_size string_dec String.leb
                       (map launch_site (filter is_success (spacex_df g))))).
Proof.
  unfold update_pie_chart, px_pie. simpl. now rewrite !map_map.
Qed.

Lemma pie_values_all (g : Globals) :
  pie_values (update_pie_chart g ALL) =
  map snd (Pandas.groupby_size string_dec String.leb
             (map launch_site (filter is_success (spacex_df g)))).
Proof.
  unfold update_pie_chart, px_pie. simpl. now rewrite map_map.
Qed.

Lemma pie_values_site (g : Globals) (site : string) :
  site <> ALL ->
  pie_values (update_pie_chart g site) =
  map snd (Pandas.value_counts Z.eq_dec
             (map class_ (filter (at_site site) (spacex_df g)))).
Proof.
  intros Hne. unfold update_pie_chart.
  apply String.eqb_neq in Hne. rewrite Hne.
  unfold px_pie. simpl. now rewrite map_map.
Qed.

Lemma pie_labels_site (g : Globals) (site : string) :
  site <> ALL ->
  pie_labels (update_pie_chart g site) =
  map class_label (map fst (Pandas.value_counts Z.eq_dec
                              (map class_ (filter (at_site site) (spacex_df g))))).
Proof.
  intros Hne. unfold update_pie_chart.
  apply String.eqb_neq in Hne. rewrite Hne.
  unfold px_pie. simpl. now rewrite !map_map.
Qed.

Lemma in_success_sites (g : Globals) (s : string) :
  In s (map launch_site (filter is_success (spacex_df g))) <->
  exists r, In r (spacex_df g) /\ is_success r = true /\ launch_site r = s.
Proof.
  rewrite in_map_iff. split.
  - intros [r [Hs Hr]]. apply filter_In in Hr. exists r. tauto.
  - intros [r [Hr [Hok Hs]]]. exists r. split; [exact Hs|].
    apply filter_In. now split.
Qed.

(** * The pie view *)

Example pie_three_rows_site_A :
  pie_slices (update_pie_chart (startup three_rows) "A") =
  [(Some "Success", 1); (Some "Failure", 1)].
Proof. reflexivity. Qed.

Example pie_three_rows_all :
  pie_slices (update_pie_chart (startup three_rows) ALL) =
  [(Some "A", 1); (Some "B", 1)].
Proof. reflexivity. Qed.

(** C1.  With the selection "ALL" the pie has one category per launch site
    among the successful records: the labels are without repetition, they
    are exactly the sites that have a successful record, each category's
    value is the number of successful records of its site, and the values
    add up to the number of successful records of the whole data set. *)
Theorem pie_all_groups_successes (g : Globals) :
  let fig := update_pie_chart g ALL in
  NoDup (pie_labels fig) /\
  (forall s, In (Some s) (pie_labels fig) <->
             exists r, In r (spacex_df g) /\ is_success r = true /\ launch_site r = s) /\
  (forall lbl n, In (lbl, n) (pie_slices fig) ->
     exists s, lbl = Some s /\
               n = count_rows (fun r => is_success r && at_site s r) (spacex_df g)) /\
  list_sum (pie_values fig) = count_rows is_success (spacex_df g).
Proof.
  cbv zeta. split; [|split; [|split]].
  - rewrite pie_labels_all.
    apply Finite.Injective_map_NoDup; [intros x y H; now inversion H|].
    eapply Permutation_NoDup;
      [apply Permutation_sym, groupby_size_keys | apply unique_NoDup].
  - intros s. rewrite pie_labels_all, <- in_success_sites. split.
    + intros Hin.
      apply in_map_iff in Hin. destruct Hin as [s' [Heq Hin]].
      inversion Heq; subst s'.
      apply (Permutation_in _ (groupby_size_keys _ _ _)) in Hin.
      now apply unique_In in Hin.
    + intros Hin. apply in_map.
      apply (Permutation_in _ (Permutation_sym (groupby_size_keys _ _ _))).
      now apply unique_In.
  - intros lbl n H. rewrite pie_slices_all in H.
    apply in_map_iff in H. destruct H as [[s k] [Heq Hin]].
    simpl in Heq. inversion Heq; subst.
    apply groupby_size_In in Hin. destruct Hin as [_ ->].
    exists s. split; [reflexivity | apply size_of_sites].
  - rewrite pie_values_all, groupby_size_total, length_map. reflexivity.
Qed.

(** C10.  With the selection "ALL" every category of the pie has a strictly
    positive value, and a site without any successful record has no
    category. *)
Theorem pie_all_no_empty_category (g : Globals) :
  let fig := update_pie_chart g ALL in
  (forall lbl n, In (lbl, n) (pie_slices fig) -> 0 < n) /\
  (forall s, count_rows (fun r => is_success r && at_site s r) (spacex_df g) = 0 ->
             ~ In (Some s) (pie_labels fig)).
Proof.
  cbv zeta. split.
  - intros lbl n Hin. rewrite pie_slices_all in Hin.
    apply in_map_iff in Hin. destruct Hin as [[s k] [Heq Hin]].
    simpl in Heq. inversion Heq; subst.
    apply groupby_size_In in Hin. destruct Hin as [Hin ->].
    now apply size_of_pos.
  - intros s Hzero Hin. rewrite pie_labels_all in Hin.
    apply in_map_iff in Hin. destruct Hin as [s' [Heq Hin]].
    inversion Heq; subst s'.
    apply (Permutation_in _ (groupby_size_keys _ _ _)) in Hin.
    apply unique_In in Hin.
    apply (size_of_pos string_dec) in Hin.
    rewrite size_of_sites in Hin. lia.
Qed.

(** C2.  For a concrete site (a selection other than the sentinel "ALL") the
    values of the pie add up to the number of records of that site. *)
Theorem pie_site_values_total (g : Globals) (site : string) :
  site <> ALL ->
  list_sum (pie_values (update_pie_chart g site)) =
  count_rows (at_site site) (spacex_df g).
Proof.
  intros Hne.
  rewrite pie_values_site by exact Hne.
  rewrite value_counts_total, length_map. reflexivity.
Qed.

Lemma class_label_success (c : Z) : class_label c = Some "Success" <-> c = 1%Z.
Proof.
  unfold class_label. destruct (Z.eqb_spec c 1) as [->|Hne].
  - tauto.
  - split; [|contradiction].
    destruct (c =? 0)%Z; discriminate.
Qed.

Lemma class_label_failure (c : Z) : class_label c = Some "Failure" <-> c = 0%Z.
Proof.
  unfold class_label. destruct (Z.eqb_spec c 1) as [->|Hne].
  - split; discriminate.
  - destruct (Z.eqb_spec c 0) as [->|Hne0]; [tauto|].
    split; [discriminate | contradiction].
Qed.

Lemma in_site_classes (g : Globals) (site : string) (c : Z) :
  In c (map class_ (filter (at_site site) (spacex_df g))) <->
  0 < count_rows (fun r => at_site site r && (class_ r =? c)%Z) (spacex_df g).
Proof.
  rewrite (size_of_pos Z.eq_dec), size_of_classes. reflexivity.
Qed.

Lemma site_label_present (g : Globals) (site : string) (c : Z) (lbl : string) :
  site <> ALL ->
  (forall c', class_label c' = Some lbl <-> c' = c) ->
  In (Some lbl) (pie_labels (update_pie_chart g site)) <->
  0 < count_rows (fun r => at_site site r && (class_ r =? c)%Z) (spacex_df g).
Proof.
  intros Hne Hlbl. rewrite pie_labels_site by exact Hne.
  rewrite <- in_site_classes. split.
  - intros Hin. apply in_map_iff in Hin. destruct Hin as [c' [Heq Hin]].
    apply Hlbl in Heq. subst c'.
    apply (Permutation_in _ (value_counts_keys Z.eq_dec _)) in Hin.
    now apply unique_In in Hin.
  - intros Hin. apply in_map_iff. exists c. split; [now apply Hlbl|].
    apply (Permutation_in _ (Permutation_sym (value_counts_keys Z.eq_dec _))).
    now apply unique_In.
Qed.

(** C3, as the code has it.  For a concrete site and a 0/1 outcome column,
    the pie has a category for each outcome that occurs among the records
    of the site, and only for those: "Success" is a category exactly when
    the site has a successful record, "Failure" exactly when it has a failed
    one; every category carries the number of the site's records with that
    outcome, which is positive, and no label is repeated. *)
Theorem pie_site_present_outcomes (g : Globals) (site : string) :
  site <> ALL ->
  (forall r, In r (spacex_df g) -> class_ r = 1%Z \/ class_ r = 0%Z) ->
  let fig := update_pie_chart g site in
  let n_success := count_rows (fun r => at_site site r && is_success r) (spacex_df g) in
  let n_failure := count_rows (fun r => at_site site r && is_failure r) (spacex_df g) in
  NoDup (pie_labels fig) /\
  (forall lbl n, In (lbl, n) (pie_slices fig) ->
     0 < n /\ (lbl = Some "Success" /\ n = n_success \/
               lbl = Some "Failure" /\ n = n_failure)) /\
  (In (Some "Success") (pie_labels fig) <-> 0 < n_success) /\
  (In (Some "Failure") (pie_labels fig) <-> 0 < n_failure).
Proof.
  intros Hne Hbin. cbv zeta.
  assert (Hcls : forall c, In c (map class_ (filter (at_site site) (spacex_df g))) ->
                           c = 1%Z \/ c = 0%Z).
  { intros c Hc. apply in_map_iff in Hc. destruct Hc as [r [<- Hr]].
    apply filter_In in Hr. apply Hbin. tauto. }
  split; [|split; [|split]].
  - rewrite pie_labels_site by exact Hne.
    apply Injective_map_NoDup_in.
    + intros x y Hx Hy Heq.
      apply (Permutation_in _ (value_counts_keys Z.eq_dec _)) in Hx, Hy.
      apply unique_In in Hx, Hy.
      destruct (Hcls x Hx) as [-> | ->], (Hcls y Hy) as [-> | ->];
        try reflexivity; discriminate.
    + eapply Permutation_NoDup;
        [apply Permutation_sym, value_counts_keys | apply unique_NoDup].
  - intros lbl n Hin. rewrite pie_slices_site in Hin by exact Hne.
    apply in_map_iff in Hin. destruct Hin as [[c k] [Heq Hin]].
    simpl in Heq. inversion Heq; subst. clear Heq.
    apply value_counts_In in Hin. destruct Hin as [Hin ->].
    split; [now apply size_of_pos|].
    rewrite size_of_classes.
    destruct (Hcls c Hin) as [-> | ->]; [left | right]; split; reflexivity.
  - apply (site_label_present g site 1%Z "Success" Hne class_label_success).
  - apply (site_label_present g site 0%Z "Failure" Hne class_label_failure).
Qed.

(** C3 as stated fails: site "B" of the sample has one successful record and
    no failed one, and its pie has the single category "Success"; there is
    no "Failure" category with value zero. *)
Lemma pie_site_omits_absent_outcome :
  pie_slices (update_pie_chart sample "B") = [(Some "Success", 1)] /\
  ~ In (Some "Failure") (pie_labels (update_pie_chart sample "B")) /\
  count_rows (fun r => at_site "B" r && is_failure r) (spacex_df sample) = 0.
Proof.
  split; [reflexivity|]. split; [|reflexivity].
  simpl. intros [H|[]]. discriminate.
Qed.

(** * The scatter view *)

(** C4.  For every selection and every interval the call returns a figure;
    each of its points is the (payload mass, outcome) pair of a record whose
    payload mass lies in the closed interval (and whose site is the selected
    one, for a concrete site); every record passing these tests has its
    point in the figure; and there is one point per such record. *)
Theorem scatter_draws_rows_in_range (g : Globals) (site : string) (low high : Q) :
  exists fig,
    update_scatter_chart g site [low; high] = Ok fig /\
    (forall p, In p (scatter_points fig) ->
       exists r, In r (spacex_df g) /\ p = (payload_mass r, class_ r) /\
                 (low <= payload_mass r)%Q /\ (payload_mass r <= high)%Q /\
                 (site = ALL \/ launch_site r = site)) /\
    (forall r, In r (spacex_df g) ->
       (low <= payload_mass r)%Q -> (payload_mass r <= high)%Q ->
       (site = ALL \/ launch_site r = site) ->
       In (payload_mass r, class_ r) (scatter_points fig)) /\
    Permutation (scatter_points fig)
                (map point_of (filter (passes site low high) (spacex_df g))).
Proof.
  destruct (update_scatter_chart_points g site low high) as [fig [Hok Hperm]].
  exists fig. split; [exact Hok|]. split; [|split; [|exact Hperm]].
  - intros p Hin.
    assert (Hd : drawn g site [low; high] p) by (exists fig; now split).
    apply drawn_iff in Hd. destruct Hd as [r [Hr [Hp [[Hlo Hhi] Hsel]]]].
    exists r. repeat split; assumption.
  - intros r Hr Hlo Hhi Hsel.
    assert (Hd : drawn g site [low; high] (point_of r)).
    { apply drawn_iff. exists r. repeat split; assumption. }
    destruct Hd as [fig' [Hok' Hin]].
    rewrite Hok in Hok'. inversion Hok'; subst fig'. exact Hin.
Qed.

(** C5.  The chart for a concrete site holds only points of records of that
    site, and the points of the chart for "ALL" are the union, over the
    sites of the data set, of the points of the per-site charts of the same
    interval.  (A point is the plotted pair; the site shown on hover in the
    "ALL" chart is metadata of the trace, not part of the point.) *)
Theorem scatter_site_points_and_union (g : Globals) (low high : Q) :
  (forall site, exists fig, update_scatter_chart g site [low; high] = Ok fig) /\
  (forall site p, site <> ALL -> drawn g site [low; high] p ->
     exists r, In r (spacex_df g) /\ launch_site r = site /\ p = point_of r) /\
  (forall p, drawn g ALL [low; high] p <->
             exists site, In site (sites g) /\ drawn g site [low; high] p).
Proof.
  split; [|split].
  - intros site.
    destruct (update_scatter_chart_points g site low high) as [fig [Hok _]].
    now exists fig.
  - intros site p Hne Hd. apply drawn_iff in Hd.
    destruct Hd as [r [Hr [Hp [_ [Hall|Hsite]]]]]; [contradiction|].
    exists r. repeat split; assumption.
  - intros p. split.
    + intros Hd. apply drawn_iff in Hd.
      destruct Hd as [r [Hr [Hp [Hrange _]]]].
      exists (launch_site r). split; [now apply in_map|].
      apply drawn_iff. exists r. repeat split; try assumption; apply Hrange || now right.
    + intros [site [_ Hd]]. apply drawn_iff in Hd.
      destruct Hd as [r [Hr [Hp [Hrange _]]]].
      apply drawn_iff. exists r. repeat split; try assumption; apply Hrange || now left.
Qed.

(** C6.  Narrowing the interval can only remove points: with
    [low <= low'] and [high' <= high], every point of the chart for
    [[low', high']] is a point of the chart for [[low, high]], whatever the
    site selection. *)
Theorem scatter_interval_monotone (g : Globals) (site : string)
    (low high low' high' : Q) (p : Q * Z) :
  (low <= low')%Q -> (high' <= high)%Q ->
  drawn g site [low'; high'] p -> drawn g site [low; high] p.
Proof.
  intros Hlo Hhi Hd. apply drawn_iff in Hd. apply drawn_iff.
  destruct Hd as [r [Hr [Hp [[Hl Hh] Hsel]]]].
  exists r. split; [exact Hr|]. split; [exact Hp|]. split; [|exact Hsel].
  split; [eapply Qle_trans; eassumption | eapply Qle_trans; eassumption].
Qed.

Lemma scatter_interval_monotone_witness :
  drawn sample "A" [0; 10000]%Q (500%Q, 1%Z).
Proof.
  apply (scatter_interval_monotone sample "A" 0 10000 0 1000).
  - unfold Qle. simpl. lia.
  - unfold Qle. simpl. lia.
  - eexists. split; [reflexivity|]. simpl. left. reflexivity.
Defined.

Lemma scatter_chart_empty (g : Globals) (site : string) (low high : Q) :
  filter (passes site low high) (spacex_df g) = [] ->
  exists fig, update_scatter_chart g site [low; high] = Ok fig /\ sc_traces fig = [].
Proof.
  intros Hnone. unfold update_scatter_chart. eexists. split; [reflexivity|].
  unfold update_layout, update_yaxes. simpl sc_traces.
  destruct (site =? ALL) eqn:Hall.
  - erewrite filter_ext, Hnone; [reflexivity|].
    intros r. unfold passes. rewrite Hall. simpl. now rewrite andb_true_r.
  - rewrite filter_twice. erewrite filter_ext, Hnone; [reflexivity|].
    intros r. unfold passes. rewrite Hall. reflexivity.
Qed.

Lemma no_row_passes (g : Globals) (site : string) (low high : Q) :
  (forall r, In r (spacex_df g) -> ~ (in_range low high r /\ site_selects site r)) ->
  filter (passes site low high) (spacex_df g) = [].
Proof.
  intros H. apply filter_none. intros r Hr.
  apply not_true_is_false. intros Hp. apply passes_iff in Hp. exact (H r Hr Hp).
Qed.

Lemma pie_site_unknown (g : Globals) (site : string) :
  site <> ALL -> ~ In site (sites g) ->
  update_pie_chart g site =
  {| pie_labels := []; pie_values := [];
     pie_title := "Success vs Failure for site " ++ site |}.
Proof.
  intros Hne Hnin. unfold update_pie_chart.
  apply String.eqb_neq in Hne. rewrite Hne.
  rewrite filter_none; [reflexivity|].
  intros r Hr. apply String.eqb_neq. intros Heq. apply Hnin.
  unfold sites. rewrite <- Heq. now apply in_map.
Qed.

(** C7.  Out-of-domain selections do not fail.  The scatter callback
    returns a figure for every site and every two-element range.  For a
    concrete site that no record has, the pie has no category and the
    scatter chart no trace; an interval that contains no payload mass gives a
    scatter chart without trace; and so does a crossed interval
    ([high < low]). *)
Theorem out_of_domain_selection_is_empty (g : Globals) :
  (forall site low high,
     exists fig, update_scatter_chart g site [low; high] = Ok fig) /\
  (forall site, site <> ALL -> ~ In site (sites g) ->
     pie_slices (update_pie_chart g site) = [] /\
     pie_labels (update_pie_chart g site) = [] /\
     pie_values (update_pie_chart g site) = []) /\
  (forall site low high, site <> ALL -> ~ In site (sites g) ->
     exists fig, update_scatter_chart g site [low; high] = Ok fig /\
                 sc_traces fig = [] /\ scatter_points fig = []) /\
  (forall site low high,
     (forall r, In r (spacex_df g) -> ~ in_range low high r) ->
     exists fig, update_scatter_chart g site [low; high] = Ok fig /\
                 sc_traces fig = [] /\ scatter_points fig = []) /\
  (forall site low high, (high < low)%Q ->
     exists fig, update_scatter_chart g site [low; high] = Ok fig /\
                 sc_traces fig = [] /\ scatter_points fig = []).
Proof.
  assert (Hempty : forall site low high,
            (forall r, In r (spacex_df g) ->
                       ~ (in_range low high r /\ site_selects site r)) ->
            exists fig, update_scatter_chart g site [low; high] = Ok fig /\
                        sc_traces fig = [] /\ scatter_points fig = []).
  { intros site low high H.
    destruct (scatter_chart_empty g site low high (no_row_passes g site low high H))
      as [fig [Hok Htr]].
    exists fig. split; [exact Hok|]. split; [exact Htr|].
    unfold scatter_points. now rewrite Htr. }
  split; [|split; [|split; [|split]]].
  - intros site low high.
    destruct (update_scatter_chart_points g site low high) as [fig [Hok _]].
    now exists fig.
  - intros site Hne Hnin. rewrite (pie_site_unknown g site Hne Hnin).
    repeat split.
  - intros site low high Hne Hnin. apply Hempty.
    intros r Hr [_ [Hall|Hsite]]; [contradiction|].
    apply Hnin. unfold sites. rewrite <- Hsite. now apply in_map.
  - intros site low high Hout. apply Hempty.
    intros r Hr [Hrange _]. exact (Hout r Hr Hrange).
  - intros site low high Hcross. apply Hempty.
    intros r Hr [[Hlo Hhi] _].
    apply (Qlt_not_le _ _ Hcross). eapply Qle_trans; eassumption.
Qed.

(** * The callbacks on the store *)

Lemma nth_error_snoc {A : Type} (l : list A) (a : A) :
  nth_error (l ++ [a]) (List.length l) = Some a.
Proof.
  rewrite nth_error_app2 by lia. now rewrite Nat.sub_diag.
Qed.

Lemma replace_nth_snoc {A : Type} (l : list A) (a a' : A) :
  Store.replace_nth (List.length l) a' (l ++ [a]) = (l ++ [a'])%list.
Proof.
  induction l as [|x tl IH]; simpl; [reflexivity | now rewrite IH].
Qed.

Lemma nth_error_ltb {A : Type} (l : list A) (n : nat) (a : A) :
  nth_error l n = Some a -> (n <? List.length l)%nat = true.
Proof.
  intros H. apply Nat.ltb_lt. apply nth_error_Some. congruence.
Qed.

Lemma extends_refl (h : Store.Heap) : Store.extends h h.
Proof.
  exists []. now rewrite app_nil_r.
Qed.

Lemma extends_trans (h1 h2 h3 : Store.Heap) :
  Store.extends h1 h2 -> Store.extends h2 h3 -> Store.extends h1 h3.
Proof.
  intros [l ->] [l' ->]. exists (l ++ l')%list. now rewrite app_assoc.
Qed.

Lemma extends_nth_error (h h' : Store.Heap) (r : nat) (o : Store.Obj) :
  Store.extends h h' -> nth_error h r = Some o -> nth_error h' r = Some o.
Proof.
  intros [l ->] H. rewrite nth_error_app1; [exact H|].
  apply nth_error_Some. congruence.
Qed.


Lemma bind_run {A B : Type} (m : Store.M A) (k : A -> Store.M B) (h h1 : Store.Heap) (a : A) :
  m h = (Store.Return a, h1) -> Store.bind m k h = k a h1.
Proof. intros H. unfold Store.bind. now rewrite H. Qed.

Lemma bind_assoc {A B C : Type} (m : Store.M A) (f : A -> Store.M B) (k : B -> Store.M C) (h : Store.Heap) :
  Store.bind (Store.bind m f) k h = Store.bind m (fun x => Store.bind (f x) k) h.
Proof.
  unfold Store.bind. destruct (m h) as [[a|e] h1]; reflexivity.
Qed.

Lemma load_run (h : Store.Heap) (r : nat) (o : Store.Obj) :
  nth_error h r = Some o -> Store.load r h = (Store.Return o, h).
Proof. intros H. unfold Store.load. now rewrite H. Qed.

Lemma store_run (h : Store.Heap) (r : nat) (o0 o : Store.Obj) :
  nth_error h r = Some o0 -> Store.store r o h = (Store.Return tt, Store.replace_nth r o h).
Proof. intros H. unfold Store.store. now rewrite (nth_error_ltb _ _ _ H). Qed.

Lemma get_frame_run (h : Store.Heap) (r : nat) (rows : DataFrame) :
  nth_error h r = Some (Store.FileFrame rows) -> Store.get_frame r h = (Store.Return rows, h).
Proof.
  intros H. unfold Store.get_frame. now rewrite (bind_run _ _ _ _ _ (load_run _ _ _ H)).
Qed.

Lemma get_table_run (h : Store.Heap) (r : nat) (t : Store.Table) :
  nth_error h r = Some (Store.DerivedFrame t) -> Store.get_table r h = (Store.Return t, h).
Proof.
  intros H. unfold Store.get_table. now rewrite (bind_run _ _ _ _ _ (load_run _ _ _ H)).
Qed.

Lemma get_pie_run (h : Store.Heap) (r : nat) (fig : Store.PieObject) :
  nth_error h r = Some (Store.PieFig fig) -> Store.get_pie r h = (Store.Return fig, h).
Proof.
  intros H. unfold Store.get_pie. now rewrite (bind_run _ _ _ _ _ (load_run _ _ _ H)).
Qed.

Lemma get_scatter_run (h : Store.Heap) (r : nat) (fig : ScatterFigure) :
  nth_error h r = Some (Store.ScatterFig fig) -> Store.get_scatter r h = (Store.Return fig, h).
Proof.
  intros H. unfold Store.get_scatter. now rewrite (bind_run _ _ _ _ _ (load_run _ _ _ H)).
Qed.

Lemma select_rows_run (h : Store.Heap) (df : nat) (rows : DataFrame) (mask : Row -> bool) :
  nth_error h df = Some (Store.FileFrame rows) ->
  Store.select_rows df mask h =
  (Store.Return (List.length h), (h ++ [Store.FileFrame (filter mask rows)])%list).
Proof.
  intros H. unfold Store.select_rows.
  now rewrite (bind_run _ _ _ _ _ (get_frame_run _ _ _ H)).
Qed.

Lemma groupby_site_size_run (h : Store.Heap) (df : nat) (rows : DataFrame) (name : string) :
  nth_error h df = Some (Store.FileFrame rows) ->
  Store.groupby_site_size df name h =
  (Store.Return (List.length h),
   (h ++
    [Store.DerivedFrame
       [ ("Launch Site",
          map (fun kv => Store.StrCell (fst kv))
              (Pandas.groupby_size string_dec String.leb (map launch_site rows)));
         (name,
          map (fun kv => Store.count_cell (snd kv))
              (Pandas.groupby_size string_dec String.leb (map launch_site rows))) ]])%list).
Proof.
  intros H. unfold Store.groupby_site_size.
  now rewrite (bind_run _ _ _ _ _ (get_frame_run _ _ _ H)).
Qed.

Lemma class_value_counts_run (h : Store.Heap) (names : string * string) (df : nat)
    (rows : DataFrame) :
  nth_error h df = Some (Store.FileFrame rows) ->
  Store.class_value_counts names df h =
  (Store.Return (List.length h),
   (h ++
    [Store.DerivedFrame
       [ (fst names,
          map (fun kv => Store.IntCell (fst kv))
              (Pandas.value_counts Z.eq_dec (map class_ rows)));
         (snd names,
          map (fun kv => Store.count_cell (snd kv))
              (Pandas.value_counts Z.eq_dec (map class_ rows))) ]])%list).
Proof.
  intros H. unfold Store.class_value_counts.
  now rewrite (bind_run _ _ _ _ _ (get_frame_run _ _ _ H)).
Qed.

Lemma set_columns_run (h : Store.Heap) (t : nat) (cols : Store.Table) (names : list string) :
  nth_error h t = Some (Store.DerivedFrame cols) ->
  List.length names = List.length cols ->
  Store.set_columns t names h =
  (Store.Return tt, Store.replace_nth t (Store.DerivedFrame (combine names (map snd cols))) h).
Proof.
  intros H Hlen. unfold Store.set_columns.
  rewrite (bind_run _ _ _ _ _ (get_table_run _ _ _ H)).
  apply Nat.eqb_eq in Hlen. rewrite Hlen.
  now apply store_run with (o0 := Store.DerivedFrame cols).
Qed.

Lemma get_item_run (h : Store.Heap) (t : nat) (cols : Store.Table) (name : string)
    (col : list Store.Cell) :
  nth_error h t = Some (Store.DerivedFrame cols) ->
  Store.lookup name cols = Some col ->
  Store.get_item t name h = (Store.Return col, h).
Proof.
  intros H Hcol. unfold Store.get_item.
  rewrite (bind_run _ _ _ _ _ (get_table_run _ _ _ H)).
  now rewrite Hcol.
Qed.

Lemma set_item_run (h : Store.Heap) (t : nat) (cols : Store.Table) (name : string)
    (col : list Store.Cell) :
  nth_error h t = Some (Store.DerivedFrame cols) ->
  Store.set_item t name col h =
  (Store.Return tt, Store.replace_nth t (Store.DerivedFrame (Store.set_col name col cols)) h).
Proof.
  intros H. unfold Store.set_item.
  rewrite (bind_run _ _ _ _ _ (get_table_run _ _ _ H)).
  now apply store_run with (o0 := Store.DerivedFrame cols).
Qed.

Lemma px_pie_run (h : Store.Heap) (t : nat) (cols : Store.Table) (values names title : string)
    (ls vs : list Store.Cell) :
  nth_error h t = Some (Store.DerivedFrame cols) ->
  Store.lookup names cols = Some ls ->
  Store.lookup values cols = Some vs ->
  Store.px_pie t values names title h =
  (Store.Return (List.length h),
   (h ++ [Store.PieFig {| Store.po_labels := ls; Store.po_values := vs; Store.po_title := title |}])%list).
Proof.
  intros H Hn Hv. unfold Store.px_pie.
  rewrite (bind_run _ _ _ _ _ (get_table_run _ _ _ H)).
  now rewrite Hn, Hv.
Qed.

Lemma px_scatter_run (h : Store.Heap) (df : nat) (rows : DataFrame) (title : string)
    (hover_data : list (Row -> string)) :
  nth_error h df = Some (Store.FileFrame rows) ->
  Store.px_scatter df title hover_data h =
  (Store.Return (List.length h),
   (h ++ [Store.ScatterFig (px_scatter rows title hover_data)])%list).
Proof.
  intros H. unfold Store.px_scatter.
  now rewrite (bind_run _ _ _ _ _ (get_frame_run _ _ _ H)).
Qed.

Lemma update_yaxes_run (h : Store.Heap) (fig : nat) (f : ScatterFigure)
    (tickvals : list Z) (ticktext : list string) :
  nth_error h fig = Some (Store.ScatterFig f) ->
  Store.update_yaxes fig tickvals ticktext h =
  (Store.Return tt,
   Store.replace_nth fig (Store.ScatterFig (update_yaxes f tickvals ticktext)) h).
Proof.
  intros H. unfold Store.update_yaxes.
  rewrite (bind_run _ _ _ _ _ (get_scatter_run _ _ _ H)).
  now apply store_run with (o0 := Store.ScatterFig f).
Qed.

Lemma update_layout_run (h : Store.Heap) (fig : nat) (f : ScatterFigure)
    (x y l : string) :
  nth_error h fig = Some (Store.ScatterFig f) ->
  Store.update_layout fig x y l h =
  (Store.Return tt, Store.replace_nth fig (Store.ScatterFig (update_layout f x y l)) h).
Proof.
  intros H. unfold Store.update_layout.
  rewrite (bind_run _ _ _ _ _ (get_scatter_run _ _ _ H)).
  now apply store_run with (o0 := Store.ScatterFig f).
Qed.

(** An update in place is seen through every reference to the object:
    renaming the columns of the object [spacex_df] refers to would change
    the data set for every later call. *)
Example rename_in_place_changes_the_data_set :
  let h0 := snd (Store.startup ("index", "class") three_rows) in
  let h1 := snd (Store.set_columns 0 ["a"; "b"; "c"; "d"] h0) in
  nth_error h1 0 <> nth_error h0 0 /\ ~ Store.extends h0 h1.
Proof.
  cbv zeta. split.
  - discriminate.
  - intros [l H]. vm_compute in H. discriminate.
Qed.

Lemma map_outcome_label (c : Z) :
  Store.map_outcome (Store.IntCell c) = label_cell (class_label c).
Proof.
  destruct c as [|[p|p|]|p]; reflexivity.
Qed.

Ltac extended :=
  unfold Store.extends; eexists; rewrite <- ?app_assoc; simpl; reflexivity.

(** One call of the pie callback on a heap that holds the data set: it
    returns a new figure object, the figure computed from the rows, and only
    adds objects to the heap. *)
Lemma update_pie_chart_run (env : Store.Env) (h : Store.Heap) (rows : DataFrame)
    (site : string) :
  nth_error h (Store.spacex_df env) = Some (Store.FileFrame rows) ->
  exists fig h',
    Store.update_pie_chart env site h = (Store.Return fig, h') /\
    Store.extends h h' /\
    nth_error h' fig =
      Some (Store.PieFig (pie_object (update_pie_chart (startup rows) site))).
Proof.
  intros Hdf. unfold Store.update_pie_chart, update_pie_chart.
  destruct (site =? ALL) eqn:Hall.
  - rewrite (bind_run _ _ _ _ _ (select_rows_run _ _ _ _ Hdf)).
    erewrite bind_run by (apply groupby_site_size_run; apply nth_error_snoc).
    erewrite px_pie_run by (first [apply nth_error_snoc | reflexivity]).
    eexists. eexists. split; [reflexivity|]. split; [extended|].
    etransitivity; [apply nth_error_snoc|].
    unfold pie_object, px_pie. simpl. rewrite !map_map. reflexivity.
  - rewrite (bind_run _ _ _ _ _ (select_rows_run _ _ _ _ Hdf)).
    erewrite bind_run by (apply class_value_counts_run; apply nth_error_snoc).
    erewrite bind_run
      by (apply set_columns_run with (names := ["class"; "count"]);
          first [apply nth_error_snoc | reflexivity]).
    cbn [map snd combine]. rewrite replace_nth_snoc.
    erewrite bind_run
      by (eapply get_item_run; [apply nth_error_snoc | reflexivity]).
    erewrite bind_run by (eapply set_item_run; apply nth_error_snoc).
    cbn [Store.set_col]. rewrite String.eqb_refl, replace_nth_snoc.
    erewrite px_pie_run by (first [apply nth_error_snoc | reflexivity]).
    eexists. eexists. split; [reflexivity|]. split; [extended|].
    etransitivity; [apply nth_error_snoc|].
    unfold pie_object, px_pie. cbn [pie_labels pie_values pie_title spacex_df startup].
    rewrite !map_map. f_equal. f_equal. f_equal.
    apply map_ext. intros [c n]. apply map_outcome_label.
Qed.

(** One call of either callback through the runtime: the answer is the one
    computed from the rows and the inputs of the call, and the heap is only
    extended. *)
Lemma respond_run (env : Store.Env) (h : Store.Heap) (rows : DataFrame)
    (c : Runtime.Call) :
  nth_error h (Store.spacex_df env) = Some (Store.FileFrame rows) ->
  exists h',
    Store.respond env c h = (answer_of (startup rows) c, h') /\
    Store.extends h h'.
Proof.
  intros Hdf. destruct c as [site | site payload_range].
  - destruct (update_pie_chart_run env h rows site Hdf) as [fig [h' [Hrun [Hext Hfig]]]].
    exists h'. split; [|exact Hext].
    unfold Store.respond. rewrite (bind_run _ _ _ _ _ Hrun).
    now rewrite (bind_run _ _ _ _ _ (get_pie_run _ _ _ Hfig)).
  - unfold Store.respond, answer_of.
    destruct payload_range as [|low [|high [|x tl]]];
      try (exists h; split; [reflexivity | apply extends_refl]).
    unfold Store.update_scatter_chart, update_scatter_chart.
    rewrite !bind_assoc.
    rewrite (bind_run _ _ _ _ _ (select_rows_run _ _ _ _ Hdf)).
    destruct (site =? ALL) eqn:Hall.
    + rewrite !bind_assoc.
      erewrite bind_run by (apply px_scatter_run; apply nth_error_snoc).
      rewrite ?bind_assoc.
      erewrite bind_run by (eapply update_yaxes_run; apply nth_error_snoc).
      rewrite replace_nth_snoc, ?bind_assoc.
      erewrite bind_run by (eapply update_layout_run; apply nth_error_snoc).
      rewrite replace_nth_snoc, ?bind_assoc.
      erewrite bind_run by reflexivity.
      erewrite bind_run by (apply get_scatter_run; apply nth_error_snoc).
      eexists. split; [reflexivity | extended].
    + rewrite !bind_assoc.
      erewrite bind_run by (apply select_rows_run; apply nth_error_snoc).
      rewrite ?bind_assoc.
      erewrite bind_run by (apply px_scatter_run; apply nth_error_snoc).
      rewrite ?bind_assoc.
      erewrite bind_run by (eapply update_yaxes_run; apply nth_error_snoc).
      rewrite replace_nth_snoc, ?bind_assoc.
      erewrite bind_run by (eapply update_layout_run; apply nth_error_snoc).
      rewrite replace_nth_snoc, ?bind_assoc.
      erewrite bind_run by reflexivity.
      erewrite bind_run by (apply get_scatter_run; apply nth_error_snoc).
      eexists. split; [reflexivity | extended].
Qed.

Lemma serve_run (env : Store.Env) (rows : DataFrame) (calls : list Runtime.Call)
    (h : Store.Heap) :
  nth_error h (Store.spacex_df env) = Some (Store.FileFrame rows) ->
  exists h',
    Store.serve env calls h = (map (answer_of (startup rows)) calls, h') /\
    Store.extends h h'.
Proof.
  revert h. induction calls as [|c rest IH]; intros h Hdf; simpl.
  - exists h. split; [reflexivity | apply extends_refl].
  - destruct (respond_run env h rows c Hdf) as [h1 [Hrun Hext1]].
    rewrite Hrun.
    destruct (IH h1 (extends_nth_error _ _ _ _ Hext1 Hdf)) as [h2 [Hserve Hext2]].
    rewrite Hserve. exists h2. split; [reflexivity|].
    eapply extends_trans; eassumption.
Qed.

(** C8.  The callbacks keep no state.  Start from the heap that holds the
    data set read from the file.  In every session each call is answered
    with the figure computed from the data set and the inputs of that call
    alone; the answer to a call after any history of calls is the answer it
    gets right after start-up, so two calls with the same inputs get
    identical figures; and a call changes no object that existed before it
    (the data set and the figures of earlier calls stay as they were): the
    in-place updates of the callbacks touch only objects the same call
    created. *)
Theorem callbacks_keep_no_state (names : string * string) (rows : DataFrame) :
  let env := fst (Store.startup names rows) in
  let h0 := snd (Store.startup names rows) in
  (forall history,
     fst (Store.serve env history h0) = map (answer_of (startup rows)) history) /\
  (forall history c,
     fst (Store.respond env c (snd (Store.serve env history h0))) =
     fst (Store.respond env c h0)) /\
  (forall history i j c,
     nth_error history i = Some c -> nth_error history j = Some c ->
     nth_error (fst (Store.serve env history h0)) i =
     nth_error (fst (Store.serve env history h0)) j) /\
  (forall history,
     nth_error (snd (Store.serve env history h0)) (Store.spacex_df env) =
     Some (Store.FileFrame rows)) /\
  (forall history c,
     Store.extends (snd (Store.serve env history h0))
                   (snd (Store.respond env c (snd (Store.serve env history h0))))).
Proof.
  cbv zeta. simpl fst. simpl snd.
  set (env := {| Store.spacex_df := 0; Store.reset_index_names := names |}).
  assert (Hdf0 : nth_error [Store.FileFrame rows] (Store.spacex_df env) =
                 Some (Store.FileFrame rows)) by reflexivity.
  assert (Hafter : forall history,
            nth_error (snd (Store.serve env history [Store.FileFrame rows]))
                      (Store.spacex_df env) = Some (Store.FileFrame rows)).
  { intros history.
    destruct (serve_run env rows history _ Hdf0) as [h1 [Hserve Hext]].
    rewrite Hserve. simpl snd. exact (extends_nth_error _ _ _ _ Hext Hdf0). }
  split; [|split; [|split; [|split]]].
  - intros history.
    destruct (serve_run env rows history _ Hdf0) as [h1 [Hserve _]].
    now rewrite Hserve.
  - intros history c.
    destruct (respond_run env _ rows c (Hafter history)) as [h2 [Hrun _]].
    destruct (respond_run env _ rows c Hdf0) as [h3 [Hrun0 _]].
    now rewrite Hrun, Hrun0.
  - intros history i j c Hi Hj.
    destruct (serve_run env rows history _ Hdf0) as [h1 [Hserve _]].
    rewrite Hserve. simpl fst. now rewrite !nth_error_map, Hi, Hj.
  - exact Hafter.
  - intros history c.
    destruct (respond_run env _ rows c (Hafter history)) as [h2 [Hrun Hext]].
    now rewrite Hrun.
Qed.

(** * The layout *)

Lemma col_min_spec (col : list Q) (m : Q) :
  col_min col = Some m ->
  In m col /\ forall x, In x col -> (m <= x)%Q.
Proof.
  revert m. induction col as [|x tl IH]; simpl; intros m H; [discriminate|].
  destruct (col_min tl) as [m'|] eqn:E.
  - destruct (IH m' eq_refl) as [Hin Hle].
    destruct (Qle_bool x m') eqn:Hc; inversion H; subst m; clear H.
    + apply Qle_bool_iff in Hc. split; [now left|].
      intros y [<-|Hy]; [apply Qle_refl|].
      eapply Qle_trans; [exact Hc | now apply Hle].
    + assert (Hlt : (m' < x)%Q).
      { apply Qnot_le_lt. intros Hle'. apply Qle_bool_iff in Hle'. congruence. }
      split; [now right|].
      intros y [<-|Hy]; [now apply Qlt_le_weak | now apply Hle].
  - inversion H; subst m. destruct tl as [|y tl].
    + split; [now left|]. intros z [<-|[]]. apply Qle_refl.
    + simpl in E. destruct (col_min tl); discriminate.
Qed.

Lemma col_max_spec (col : list Q) (m : Q) :
  col_max col = Some m ->
  In m col /\ forall x, In x col -> (x <= m)%Q.
Proof.
  revert m. induction col as [|x tl IH]; simpl; intros m H; [discriminate|].
  destruct (col_max tl) as [m'|] eqn:E.
  - destruct (IH m' eq_refl) as [Hin Hle].
    destruct (Qle_bool m' x) eqn:Hc; inversion H; subst m; clear H.
    + apply Qle_bool_iff in Hc. split; [now left|].
      intros y [<-|Hy]; [apply Qle_refl|].
      eapply Qle_trans; [now apply Hle | exact Hc].
    + assert (Hlt : (x < m')%Q).
      { apply Qnot_le_lt. intros Hle'. apply Qle_bool_iff in Hle'. congruence. }
      split; [now right|].
      intros y [<-|Hy]; [now apply Qlt_le_weak | now apply Hle].
  - inversion H; subst m. destruct tl as [|y tl].
    + split; [now left|]. intros z [<-|[]]. apply Qle_refl.
    + simpl in E. destruct (col_max tl); discriminate.
Qed.

Lemma col_min_some (col : list Q) : col <> [] -> exists m, col_min col = Some m.
Proof.
  destruct col as [|x tl]; [congruence|]. intros _. simpl.
  destruct (col_min tl); eexists; reflexivity.
Qed.

Lemma col_max_some (col : list Q) : col <> [] -> exists m, col_max col = Some m.
Proof.
  destruct col as [|x tl]; [congruence|]. intros _. simpl.
  destruct (col_max tl); eexists; reflexivity.
Qed.

(** C9.  The controls of the layout built from the loaded rows.  The
    selector's option values are "ALL" followed by the distinct sites of the
    data set, each once, and its default is "ALL".  The range control has
    minimum 0, maximum 10000 and step 1000, its handles may not cross, and
    its default value is the pair (minimum payload, maximum payload) of the
    data set: for a non-empty data set two payload masses of the data set
    that bound every payload mass from below and from above. *)
Theorem layout_controls (rows : DataFrame) :
  let page := layout (startup rows) in
  let site_col := map launch_site rows in
  let payloads := map payload_mass rows in
  map opt_value (dd_options (site_dropdown page)) =
    ALL :: Pandas.unique string_dec site_col /\
  NoDup (Pandas.unique string_dec site_col) /\
  (forall s, In s (Pandas.unique string_dec site_col) <-> In s site_col) /\
  dd_value (site_dropdown page) = ALL /\
  rs_min (payload_slider page) = 0%Q /\
  rs_max (payload_slider page) = 10000%Q /\
  rs_step (payload_slider page) = 1000%Q /\
  rs_allowCross (payload_slider page) = false /\
  rs_value (payload_slider page) = [col_min payloads; col_max payloads] /\
  (rows <> [] ->
   exists lo hi,
     rs_value (payload_slider page) = [Some lo; Some hi] /\
     In lo payloads /\ In hi payloads /\
     forall r, In r rows -> (lo <= payload_mass r)%Q /\ (payload_mass r <= hi)%Q).
Proof.
  cbv zeta. simpl.
  split; [now rewrite map_map, map_id|].
  split; [apply unique_NoDup|].
  split; [intros s; apply unique_In|].
  repeat (split; [reflexivity|]).
  intros Hne.
  assert (Hne' : map payload_mass rows <> []) by (destruct rows; [congruence | discriminate]).
  destruct (col_min_some _ Hne') as [lo Hlo].
  destruct (col_max_some _ Hne') as [hi Hhi].
  exists lo, hi. rewrite Hlo, Hhi. split; [reflexivity|].
  destruct (col_min_spec _ _ Hlo) as [Hin_lo Hle_lo].
  destruct (col_max_spec _ _ Hhi) as [Hin_hi Hle_hi].
  split; [exact Hin_lo|]. split; [exact Hin_hi|].
  intros r Hr. split; [apply Hle_lo | apply Hle_hi]; now apply in_map.
Qed.

(** * The theorems at the sample data set *)

Lemma sample_is_binary :
  forall r, In r (spacex_df sample) -> class_ r = 1%Z \/ class_ r = 0%Z.
Proof.
  intros r Hr. simpl in Hr.
  destruct Hr as [<-|[<-|[<-|[<-|[]]]]]; simpl; auto.
Defined.

Lemma pie_all_groups_successes_witness :
  list_sum (pie_values (update_pie_chart sample ALL)) = 2.
Proof.
  destruct (pie_all_groups_successes sample) as [_ [_ [_ Htotal]]].
  exact Htotal.
Defined.

Lemma pie_all_no_empty_category_witness :
  ~ In (Some "C") (pie_labels (update_pie_chart sample ALL)).
Proof.
  destruct (pie_all_no_empty_category sample) as [_ Habsent].
  apply Habsent. reflexivity.
Defined.

Lemma pie_site_values_total_witness :
  "A" <> ALL /\ list_sum (pie_values (update_pie_chart sample "A")) = 2.
Proof.
  split; [discriminate|].
  apply (pie_site_values_total sample "A"). discriminate.
Defined.

Lemma pie_site_present_outcomes_witness :
  "A" <> ALL /\
  (In (Some "Failure") (pie_labels (update_pie_chart sample "A")) <-> 0 < 1).
Proof.
  split; [discriminate|].
  destruct (pie_site_present_outcomes sample "A") as [_ [_ [_ Hfail]]].
  - discriminate.
  - exact sample_is_binary.
  - exact Hfail.
Defined.

Lemma scatter_draws_rows_in_range_witness :
  exists fig,
    update_scatter_chart sample "A" [0; 10000]%Q = Ok fig /\
    In (9000%Q, 0%Z) (scatter_points fig).
Proof.
  destruct (scatter_draws_rows_in_range sample "A" 0 10000)
    as [fig [Hok [_ [Hall _]]]].
  exists fig. split; [exact Hok|].
  apply (Hall (mkRow "A" 9000 0 "FT")).
  - simpl. right. left. reflexivity.
  - unfold Qle. simpl. lia.
  - unfold Qle. simpl. lia.
  - right. reflexivity.
Defined.

Lemma scatter_site_points_and_union_witness :
  drawn sample ALL [0; 5000]%Q (3000%Q, 1%Z).
Proof.
  destruct (scatter_site_points_and_union sample 0 5000) as [_ [_ Hunion]].
  apply Hunion. exists "B". split.
  - simpl. right. right. left. reflexivity.
  - eexists. split; [reflexivity|]. simpl. left. reflexivity.
Defined.

Lemma out_of_domain_selection_is_empty_witness :
  pie_slices (update_pie_chart sample "Z") = [] /\
  exists fig, update_scatter_chart sample "A" [7000; 600]%Q = Ok fig /\
              sc_traces fig = [] /\ scatter_points fig = [].
Proof.
  destruct (out_of_domain_selection_is_empty sample) as [_ [Hpie [_ [_ Hcross]]]].
  split.
  - apply Hpie; [discriminate|].
    simpl. intros [H|[H|[H|[H|[]]]]]; discriminate.
  - apply Hcross. reflexivity.
Defined.

Lemma callbacks_keep_no_state_witness :
  let start := Store.startup ("index", "class") sample_rows in
  let history := [Runtime.PieCall "A"; Runtime.ScatterCall ALL [0; 10000]%Q;
                  Runtime.ScatterCall "A" [0]%Q] in
  fst (Store.respond (fst start) (Runtime.PieCall "A")
         (snd (Store.serve (fst start) history (snd start)))) =
  fst (Store.respond (fst start) (Runtime.PieCall "A") (snd start)).
Proof.
  cbv zeta.
  destruct (callbacks_keep_no_state ("index", "class") sample_rows)
    as [_ [Hsame _]].
  apply Hsame.
Defined.

Lemma layout_controls_witness :
  exists lo hi,
    rs_value (payload_slider (layout (startup sample_rows))) = [Some lo; Some hi] /\
    In lo (map payload_mass sample_rows) /\ In hi (map payload_mass sample_rows) /\
    forall r, In r sample_rows -> (lo <= payload_mass r)%Q /\ (payload_mass r <= hi)%Q.
Proof.
  destruct (layout_controls sample_rows) as [_ [_ [_ [_ [_ [_ [_ [_ [_ Hdef]]]]]]]]].
  apply Hdef. discriminate.
Defined.

(** * Further properties of the scatter callback *)

Lemma frame_all (g : Globals) (low high : Q) :
  filter (fun r => Qle_bool low (payload_mass r) && Qle_bool (payload_mass r) high)
         (spacex_df g) =
  filter (passes ALL low high) (spacex_df g).
Proof.
  apply filter_ext. intros r. unfold passes. simpl. now rewrite andb_true_r.
Qed.

Lemma frame_site (g : Globals) (site : string) (low high : Q) :
  (site =? ALL) = false ->
  filter (fun r => launch_site r =? site)
    (filter (fun r => Qle_bool low (payload_mass r) && Qle_bool (payload_mass r) high)
            (spacex_df g)) =
  filter (passes site low high) (spacex_df g).
Proof.
  intros Hne. rewrite filter_twice. apply filter_ext.
  intros r. unfold passes. now rewrite Hne.
Qed.

(** The traces and ticks of the figure returned for a two-element range. *)
Lemma scatter_chart_traces (g : Globals) (site : string) (low high : Q) :
  exists fig,
    update_scatter_chart g site [low; high] = Ok fig /\
    sc_traces fig =
      sc_traces (px_scatter (filter (passes site low high) (spacex_df g)) ""
                            (if site =? ALL then [launch_site] else [])) /\
    sc_tickvals fig = [0; 1]%Z /\
    sc_ticktext fig = ["Failure"; "Success"].
Proof.
  unfold update_scatter_chart.
  destruct (site =? ALL) eqn:Hall.
  - apply String.eqb_eq in Hall. subst site. rewrite frame_all.
    eexists. split; [reflexivity|]. repeat split.
  - rewrite (frame_site g site low high Hall).
    eexists. split; [reflexivity|]. repeat split.
Qed.

Lemma px_scatter_trace_names (frame : DataFrame) (title : string)
    (hover_data : list (Row -> string)) :
  map tr_name (sc_traces (px_scatter frame title hover_data)) =
  Pandas.unique string_dec (map booster_version_category frame).
Proof.
  unfold px_scatter. simpl. rewrite map_map. simpl. apply map_id.
Qed.

Lemma px_scatter_trace_inv (frame : DataFrame) (title : string)
    (hover_data : list (Row -> string)) (t : ScatterTrace) :
  In t (sc_traces (px_scatter frame title hover_data)) ->
  In (tr_name t) (map booster_version_category frame) /\
  tr_x t = map payload_mass
             (filter (fun r => booster_version_category r =? tr_name t) frame) /\
  tr_y t = map class_
             (filter (fun r => booster_version_category r =? tr_name t) frame) /\
  tr_customdata t =
    match hover_data with
    | [] => []
    | _ => map (fun r => map (fun col => col r) hover_data)
               (filter (fun r => booster_version_category r =? tr_name t) frame)
    end.
Proof.
  unfold px_scatter. simpl. intros Hin.
  apply in_map_iff in Hin. destruct Hin as [cat [<- Hcat]]. simpl.
  split; [apply (unique_In string_dec cat (map booster_version_category frame)); exact Hcat|].
  repeat split.
Qed.

(** X1.  The range argument is unpacked into two bounds: the call raises
    [ValueError] exactly when the range does not have two elements, and
    returns a figure exactly when it has. *)
Theorem scatter_range_arity (g : Globals) (site : string) (payload_range : list Q) :
  (update_scatter_chart g site payload_range = Raise ValueError <->
   List.length payload_range <> 2) /\
  ((exists fig, update_scatter_chart g site payload_range = Ok fig) <->
   List.length payload_range = 2).
Proof.
  destruct payload_range as [|a [|b [|c tl]]]; simpl; split; split;
    try (intros; lia); try (intros; reflexivity); try discriminate;
    try (intros [fig H]; discriminate); try (intros; congruence).
  - intros _. eexists. reflexivity.
Qed.

(** X2.  The traces of a scatter chart: their names are the booster
    categories of the rows that pass the payload and site tests, each name
    once, and no trace is empty. *)
Theorem scatter_traces_by_booster (g : Globals) (site : string) (low high : Q) :
  exists fig,
    update_scatter_chart g site [low; high] = Ok fig /\
    NoDup (map tr_name (sc_traces fig)) /\
    (forall c, In c (map tr_name (sc_traces fig)) <->
               exists r, In r (spacex_df g) /\ passes site low high r = true /\
                         booster_version_category r = c) /\
    (forall t, In t (sc_traces fig) -> tr_x t <> [] /\ tr_y t <> []).
Proof.
  destruct (scatter_chart_traces g site low high) as [fig [Hok [Htr _]]].
  exists fig. split; [exact Hok|]. rewrite Htr.
  split; [|split].
  - rewrite px_scatter_trace_names. apply unique_NoDup.
  - intros c. rewrite px_scatter_trace_names, unique_In, in_map_iff. split.
    + intros [r [Hc Hr]]. apply filter_In in Hr. exists r. tauto.
    + intros [r [Hr [Hp Hc]]]. exists r. split; [exact Hc|].
      apply filter_In. now split.
  - intros t Ht. apply px_scatter_trace_inv in Ht.
    destruct Ht as [Hname [Hx [Hy _]]].
    apply in_map_iff in Hname. destruct Hname as [r [Hr Hin]].
    assert (Hgrp : In r (filter (fun r0 => booster_version_category r0 =? tr_name t)
                                (filter (passes site low high) (spacex_df g)))).
    { apply filter_In. split; [exact Hin | now apply String.eqb_eq]. }
    rewrite Hx, Hy.
    destruct (filter _ (filter _ _)); [contradiction|].
    split; discriminate.
Qed.

(** X3.  What a trace holds.  Its x, y and hover arrays are read, in the
    order of the data set, off the rows that pass the tests and have the
    trace's booster category: x is the payload mass, y the outcome; in the
    chart for "ALL" the hover entry of a point is the launch site of its
    row, and in the chart of a concrete site there is no hover array. *)
Theorem scatter_trace_contents (g : Globals) (site : string) (low high : Q) :
  exists fig,
    update_scatter_chart g site [low; high] = Ok fig /\
    forall t, In t (sc_traces fig) ->
      tr_x t = map payload_mass (trace_rows g site low high t) /\
      tr_y t = map class_ (trace_rows g site low high t) /\
      tr_customdata t =
        if site =? ALL
        then map (fun r => [launch_site r]) (trace_rows g site low high t)
        else [].
Proof.
  destruct (scatter_chart_traces g site low high) as [fig [Hok [Htr _]]].
  exists fig. split; [exact Hok|]. rewrite Htr.
  intros t Ht. apply px_scatter_trace_inv in Ht.
  destruct Ht as [_ [Hx [Hy Hc]]].
  unfold trace_rows. rewrite <- filter_twice.
  split; [exact Hx|]. split; [exact Hy|].
  rewrite Hc. destruct (site =? ALL); reflexivity.
Qed.

(** X4.  Two adjacent windows cover the whole window: for
    [low <= mid <= high] a point is drawn for [[low, high]] exactly when it
    is drawn for [[low, mid]] or for [[mid, high]]. *)
Theorem scatter_interval_split (g : Globals) (site : string)
    (low mid high : Q) (p : Q * Z) :
  (low <= mid)%Q -> (mid <= high)%Q ->
  (drawn g site [low; high] p <->
   drawn g site [low; mid] p \/ drawn g site [mid; high] p).
Proof.
  intros Hlm Hmh. rewrite !drawn_iff. split.
  - intros [r [Hr [Hp [[Hlo Hhi] Hsel]]]].
    destruct (Qlt_le_dec mid (payload_mass r)) as [Hlt|Hle].
    + right. exists r. repeat split; try assumption. now apply Qlt_le_weak.
    + left. exists r. repeat split; assumption.
  - intros [[r [Hr [Hp [[Hlo Hhi] Hsel]]]] | [r [Hr [Hp [[Hlo Hhi] Hsel]]]]];
      exists r; repeat split; try assumption.
    + eapply Qle_trans; eassumption.
    + eapply Qle_trans; eassumption.
Qed.

Lemma points_of_perm (g : Globals) (site : string) (low high : Q) :
  Permutation (points_of (update_scatter_chart g site [low; high]))
              (map point_of (filter (passes site low high) (spacex_df g))).
Proof.
  destruct (update_scatter_chart_points g site low high) as [fig [Hok Hperm]].
  rewrite Hok. exact Hperm.
Qed.

Lemma Permutation_flat_map_pointwise {A B : Type} (f h : A -> list B) (l : list A) :
  (forall x, Permutation (f x) (h x)) ->
  Permutation (flat_map f l) (flat_map h l).
Proof.
  intros H. induction l as [|x tl IH]; simpl; [constructor|].
  now apply Permutation_app.
Qed.

Lemma flat_map_ext_on {A B : Type} (f h : A -> list B) (l : list A) :
  (forall x, In x l -> f x = h x) -> flat_map f l = flat_map h l.
Proof.
  induction l as [|x tl IH]; simpl; intros H; [reflexivity|].
  rewrite (H x (or_introl eq_refl)). f_equal. apply IH.
  intros y Hy. apply H. now right.
Qed.

Lemma passes_site_of_all (site : string) (low high : Q) (df : DataFrame) :
  site <> ALL ->
  filter (passes site low high) df =
  filter (fun r => launch_site r =? site) (filter (passes ALL low high) df).
Proof.
  intros Hne. apply String.eqb_neq in Hne.
  rewrite filter_twice. apply filter_ext. intros r.
  unfold passes. rewrite Hne. simpl. now rewrite andb_true_r.
Qed.

(** X5.  The per-site charts partition the chart for "ALL".  When no launch
    site is itself called "ALL", the points of the chart for "ALL" are, up
    to order and with multiplicity, the points of the charts of the distinct
    sites of the data set put together: every record is drawn in exactly one
    per-site chart. *)
Theorem scatter_all_partitioned_by_site (g : Globals) (low high : Q) :
  ~ In ALL (sites g) ->
  Permutation
    (points_of (update_scatter_chart g ALL [low; high]))
    (flat_map (fun site => points_of (update_scatter_chart g site [low; high]))
              (Pandas.unique string_dec (sites g))).
Proof.
  intros Hnot.
  eapply Permutation_trans; [apply points_of_perm|].
  apply Permutation_sym.
  eapply Permutation_trans.
  { apply Permutation_flat_map_pointwise. intros site. apply points_of_perm. }
  rewrite <- map_over_flat_map. apply Permutation_map.
  rewrite (flat_map_ext_on _
             (fun site => filter (fun r => launch_site r =? site)
                                 (filter (passes ALL low high) (spacex_df g)))).
  - apply (group_rows_perm launch_site).
    + apply unique_NoDup.
    + intros r Hr. apply filter_In in Hr. apply unique_In.
      unfold sites. apply in_map. tauto.
  - intros site Hsite. apply passes_site_of_all.
    intros Heq. apply Hnot. rewrite <- Heq.
    apply (unique_In string_dec site (sites g)). exact Hsite.
Qed.

Lemma scatter_all_partitioned_by_site_witness :
  Permutation
    (points_of (update_scatter_chart sample ALL [0; 10000]%Q))
    (flat_map (fun site => points_of (update_scatter_chart sample site [0; 10000]%Q))
              ["A"; "B"; "C"]).
Proof.
  apply (scatter_all_partitioned_by_site sample 0 10000).
  simpl. intros [H|[H|[H|[H|[]]]]]; discriminate.
Defined.

(** X6.  The two views count the same records.  For a concrete site and an
    interval that contains the payload mass of every record of the site, the
    scatter chart has as many points as the values of the site's pie add up
    to. *)
Theorem scatter_count_matches_pie (g : Globals) (site : string) (low high : Q) :
  site <> ALL ->
  (forall r, In r (spacex_df g) -> launch_site r = site -> in_range low high r) ->
  exists fig,
    update_scatter_chart g site [low; high] = Ok fig /\
    List.length (scatter_points fig) =
    list_sum (pie_values (update_pie_chart g site)).
Proof.
  intros Hne Hcover.
  destruct (update_scatter_chart_points g site low high) as [fig [Hok Hperm]].
  exists fig. split; [exact Hok|].
  rewrite (Permutation_length Hperm), length_map.
  rewrite pie_values_site by exact Hne.
  rewrite value_counts_total, length_map.
  f_equal. apply filter_ext_in. intros r Hr.
  unfold at_site. destruct (String.eqb_spec (launch_site r) site) as [Heq|Hneq].
  - apply passes_iff. split; [now apply Hcover | now right].
  - apply not_true_is_false. intros Hp. apply passes_iff in Hp.
    destruct Hp as [_ [Hall|Hsite]]; contradiction.
Qed.

Lemma scatter_count_matches_pie_witness :
  exists fig,
    update_scatter_chart sample "A" [0; 10000]%Q = Ok fig /\
    List.length (scatter_points fig) = 2.
Proof.
  apply (scatter_count_matches_pie sample "A" 0 10000); [discriminate|].
  intros r Hr _. simpl in Hr.
  destruct Hr as [<-|[<-|[<-|[<-|[]]]]]; split; unfold Qle; simpl; lia.
Defined.

(** X7.  Every point sits on a labelled tick.  For a 0/1 outcome column the
    y value of each point is one of the tick values set on the y axis, and
    the text of that tick is the label the pie gives to the same outcome. *)
Theorem scatter_points_on_ticks (g : Globals) (site : string) (low high : Q) :
  (forall r, In r (spacex_df g) -> class_ r = 1%Z \/ class_ r = 0%Z) ->
  exists fig,
    update_scatter_chart g site [low; high] = Ok fig /\
    forall p, In p (scatter_points fig) ->
      exists text, In (snd p, text) (combine (sc_tickvals fig) (sc_ticktext fig)) /\
                   class_label (snd p) = Some text.
Proof.
  intros Hbin.
  destruct (scatter_chart_traces g site low high) as [fig [Hok [_ [Hvals Htext]]]].
  exists fig. split; [exact Hok|].
  intros p Hp. rewrite Hvals, Htext.
  assert (Hd : drawn g site [low; high] p) by (exists fig; now split).
  apply drawn_iff in Hd. destruct Hd as [r [Hr [-> _]]].
  simpl. destruct (Hbin r Hr) as [-> | ->].
  - exists "Success". split; [right; left; reflexivity | reflexivity].
  - exists "Failure". split; [left; reflexivity | reflexivity].
Qed.

Lemma scatter_points_on_ticks_witness :
  exists fig,
    update_scatter_chart sample ALL [0; 10000]%Q = Ok fig /\
    forall p, In p (scatter_points fig) ->
      exists text, In (snd p, text) (combine (sc_tickvals fig) (sc_ticktext fig)) /\
                   class_label (snd p) = Some text.
Proof.
  apply (scatter_points_on_ticks sample ALL 0 10000). exact sample_is_binary.
Defined.

(** * Start-up and the default view *)

Lemma col_min_le_max (col : list Q) (lo hi : Q) :
  col_min col = Some lo -> col_max col = Some hi -> (lo <= hi)%Q.
Proof.
  intros Hlo Hhi.
  destruct (col_min_spec _ _ Hlo) as [Hin _].
  destruct (col_max_spec _ _ Hhi) as [_ Hle].
  now apply Hle.
Qed.

(** X8.  The payload bounds computed at start-up.  They are missing ([NaN])
    exactly when the file has no row; otherwise both are payload masses of
    the data set and the minimum is at most the maximum, so the default
    handles of the slider are not crossed. *)
Theorem startup_payload_bounds (rows : DataFrame) :
  (min_payload (startup rows) = None <-> rows = []) /\
  (max_payload (startup rows) = None <-> rows = []) /\
  (forall lo hi,
     min_payload (startup rows) = Some lo ->
     max_payload (startup rows) = Some hi ->
     (lo <= hi)%Q /\
     In lo (map payload_mass rows) /\ In hi (map payload_mass rows)).
Proof.
  simpl. split; [|split].
  - split; [|intros ->; reflexivity].
    destruct rows as [|r rows]; [reflexivity|]. simpl.
    destruct (col_min (map payload_mass rows)); discriminate.
  - split; [|intros ->; reflexivity].
    destruct rows as [|r rows]; [reflexivity|]. simpl.
    destruct (col_max (map payload_mass rows)); discriminate.
  - intros lo hi Hlo Hhi. split; [eapply col_min_le_max; eassumption|].
    split; [apply (col_min_spec _ _ Hlo) | apply (col_max_spec _ _ Hhi)].
Qed.

Lemma startup_payload_bounds_witness :
  (500 <= 9000)%Q /\
  In 500%Q (map payload_mass sample_rows) /\ In 9000%Q (map payload_mass sample_rows).
Proof.
  destruct (startup_payload_bounds sample_rows) as [_ [_ Hbounds]].
  apply Hbounds; reflexivity.
Defined.

(** X9.  The view shown when the page loads.  For a non-empty data set the
    default values of the two controls, given to the scatter callback,
    produce a chart that draws every record of the data set, one point
    each. *)
Theorem default_view_draws_every_record (rows : DataFrame) :
  rows <> [] ->
  let g := startup rows in
  exists lo hi fig,
    rs_value (payload_slider (layout g)) = [Some lo; Some hi] /\
    update_scatter_chart g (dd_value (site_dropdown (layout g))) [lo; hi] = Ok fig /\
    Permutation (scatter_points fig) (map point_of rows).
Proof.
  intros Hne. cbv zeta.
  assert (Hne' : map payload_mass rows <> [])
    by (destruct rows; [congruence | discriminate]).
  destruct (col_min_some _ Hne') as [lo Hlo].
  destruct (col_max_some _ Hne') as [hi Hhi].
  destruct (update_scatter_chart_points (startup rows) ALL lo hi) as [fig [Hok Hperm]].
  exists lo, hi, fig. simpl rs_value. simpl dd_value.
  rewrite Hlo, Hhi. split; [reflexivity|]. split; [exact Hok|].
  eapply Permutation_trans; [exact Hperm|].
  simpl spacex_df. rewrite (proj2 (filter_ext_in_iff _ (fun _ => true) rows)).
  - clear. induction rows as [|r rows IH]; simpl; [constructor | now constructor].
  - intros r Hr. apply passes_iff. split; [|now left].
    split.
    + apply (col_min_spec _ _ Hlo). now apply in_map.
    + apply (col_max_spec _ _ Hhi). now apply in_map.
Qed.

Lemma default_view_draws_every_record_witness :
  exists lo hi fig,
    rs_value (payload_slider (layout sample)) = [Some lo; Some hi] /\
    update_scatter_chart sample (dd_value (site_dropdown (layout sample))) [lo; hi]
      = Ok fig /\
    Permutation (scatter_points fig) (map point_of sample_rows).
Proof.
  apply (default_view_draws_every_record sample_rows). discriminate.
Defined.

(** X10.  Every site the selector offers has data.  An option of the
    dropdown other than "ALL" is the launch site of some record, so
    selecting it gives a pie with at least one category and a positive
    total. *)
Theorem offered_site_pie_not_empty (g : Globals) (o : DropdownOption) :
  In o (dd_options (site_dropdown (layout g))) ->
  opt_value o <> ALL ->
  (exists r, In r (spacex_df g) /\ launch_site r = opt_value o) /\
  pie_slices (update_pie_chart g (opt_value o)) <> [] /\
  0 < list_sum (pie_values (update_pie_chart g (opt_value o))).
Proof.
  intros Hin Hne. simpl in Hin.
  destruct Hin as [<-|Hin]; [now elim Hne|].
  apply in_map_iff in Hin. destruct Hin as [site [<- Hsite]]. simpl in *.
  apply (proj1 (unique_In string_dec site _)) in Hsite.
  apply in_map_iff in Hsite. destruct Hsite as [r [Hs Hr]].
  assert (Hpos : 0 < count_rows (at_site site) (spacex_df g)).
  { unfold count_rows.
    assert (Hf : In r (filter (at_site site) (spacex_df g))).
    { apply filter_In. split; [exact Hr | now apply String.eqb_eq]. }
    destruct (filter (at_site site) (spacex_df g)); [contradiction | simpl; lia]. }
  assert (Htotal : list_sum (pie_values (update_pie_chart g site)) =
                   count_rows (at_site site) (spacex_df g)).
  { rewrite pie_values_site by exact Hne.
    rewrite value_counts_total, length_map. reflexivity. }
  split; [exists r; now split|].
  split; [|lia].
  intros Hnil.
  assert (Hvals : pie_values (update_pie_chart g site) = []).
  { rewrite pie_values_site by exact Hne.
    rewrite pie_slices_site in Hnil by exact Hne.
    apply map_eq_nil in Hnil. now rewrite Hnil. }
  rewrite Hvals in Htotal. simpl in Htotal. lia.
Qed.

Lemma offered_site_pie_not_empty_witness :
  0 < list_sum (pie_values (update_pie_chart sample "B")).
Proof.
  apply (offered_site_pie_not_empty sample {| opt_label := "B"; opt_value := "B" |}).
  - simpl. right. right. left. reflexivity.
  - discriminate.
Defined.

(** * Further properties of the pie callback *)

Lemma count_rows_ext (f h : Row -> bool) (df : DataFrame) :
  (forall r, f r = h r) -> count_rows f df = count_rows h df.
Proof.
  intros H. unfold count_rows. f_equal. now apply filter_ext.
Qed.

(** X11.  The two pies agree on the successes of a site.  For a concrete
    site, the chart for "ALL" has the category (site, n) exactly when the
    chart of the site has the category ("Success", n). *)
Theorem pie_all_matches_site_success (g : Globals) (site : string) (n : nat) :
  site <> ALL ->
  (In (Some site, n) (pie_slices (update_pie_chart g ALL)) <->
   In (Some "Success", n) (pie_slices (update_pie_chart g site))).
Proof.
  intros Hne.
  rewrite pie_slices_all, (pie_slices_site g site Hne), !in_map_iff.
  assert (Hcount : Pandas.size_of string_dec site
                     (map launch_site (filter is_success (spacex_df g))) =
                   Pandas.size_of Z.eq_dec 1%Z
                     (map class_ (filter (at_site site) (spacex_df g)))).
  { rewrite size_of_sites, size_of_classes. apply count_rows_ext.
    intros r. apply andb_comm. }
  split.
  - intros [[s k] [Heq Hin]]. simpl in Heq. inversion Heq; subst s k.
    apply groupby_size_In in Hin. destruct Hin as [Hin ->].
    exists (1%Z, Pandas.size_of string_dec site
                   (map launch_site (filter is_success (spacex_df g)))).
    split; [reflexivity|].
    apply value_counts_In. split; [|exact Hcount].
    apply (size_of_pos Z.eq_dec). rewrite <- Hcount.
    now apply (size_of_pos string_dec).
  - intros [[c k] [Heq Hin]]. simpl in Heq. inversion Heq as [[Hc Hk]]. subst k.
    apply class_label_success in Hc. subst c.
    apply value_counts_In in Hin. destruct Hin as [Hin ->].
    exists (site, Pandas.size_of Z.eq_dec 1%Z
                    (map class_ (filter (at_site site) (spacex_df g)))).
    split; [reflexivity|].
    apply groupby_size_In. split; [|now symmetry].
    apply (size_of_pos string_dec). rewrite Hcount.
    now apply (size_of_pos Z.eq_dec).
Qed.

Lemma pie_all_matches_site_success_witness :
  In (Some "Success", 1) (pie_slices (update_pie_chart sample "A")).
Proof.
  apply (pie_all_matches_site_success sample "A" 1); [discriminate|].
  simpl. left. reflexivity.
Defined.

(** X12.  An outcome value other than 0 and 1 has no entry in the label
    dictionary: the pie of a concrete site has a category without label
    ([NaN]) exactly when some record of the site has such an outcome. *)
Theorem pie_site_unlabelled_outcome (g : Globals) (site : string) :
  site <> ALL ->
  (In None (pie_labels (update_pie_chart g site)) <->
   exists r, In r (spacex_df g) /\ launch_site r = site /\
             class_ r <> 1%Z /\ class_ r <> 0%Z).
Proof.
  intros Hne. rewrite (pie_labels_site g site Hne), in_map_iff. split.
  - intros [c [Hlbl Hin]].
    apply (Permutation_in _ (value_counts_keys Z.eq_dec _)) in Hin.
    apply (proj1 (unique_In Z.eq_dec c _)) in Hin.
    apply in_map_iff in Hin. destruct Hin as [r [Hc Hr]]. subst c.
    apply filter_In in Hr. destruct Hr as [Hr Hs]. apply String.eqb_eq in Hs.
    exists r. split; [exact Hr|]. split; [exact Hs|].
    unfold class_label in Hlbl.
    destruct (Z.eqb_spec (class_ r) 1); [discriminate|].
    destruct (Z.eqb_spec (class_ r) 0); [discriminate|].
    now split.
  - intros [r [Hr [Hs [H1 H0]]]]. exists (class_ r). split.
    + unfold class_label.
      destruct (Z.eqb_spec (class_ r) 1); [contradiction|].
      destruct (Z.eqb_spec (class_ r) 0); [contradiction | reflexivity].
    + apply (Permutation_in _ (Permutation_sym (value_counts_keys Z.eq_dec _))).
      apply (proj2 (unique_In Z.eq_dec (class_ r) _)).
      apply in_map. apply filter_In. split; [exact Hr | now apply String.eqb_eq].
Qed.

Lemma pie_site_unlabelled_outcome_witness :
  In None (pie_labels (update_pie_chart (startup [mkRow "A" 500 2 "v1.0"]) "A")).
Proof.
  apply (pie_site_unlabelled_outcome (startup [mkRow "A" 500 2 "v1.0"]) "A");
    [discriminate|].
  exists (mkRow "A" 500 2 "v1.0").
  split; [left; reflexivity|]. split; [reflexivity|]. split; discriminate.
Defined.

Section SortedFacts.
Context {A : Type}.
Variable leb : A -> A -> bool.
Hypothesis leb_total : forall a b, leb a b = true \/ leb b a = true.

Lemma insert_by_sorted (x : A) (l : list A) :
  Sorted (fun a b => leb a b = true) l ->
  Sorted (fun a b => leb a b = true) (Pandas.insert_by leb x l).
Proof.
  induction l as [|y tl IH]; simpl; intros Hs.
  - constructor; constructor.
  - apply Sorted_inv in Hs. destruct Hs as [Hs Hhd].
    destruct (leb y x) eqn:Hyx.
    + constructor; [now apply IH|].
      destruct tl as [|z tl]; simpl.
      * now constructor.
      * destruct (leb z x); constructor; [|exact Hyx].
        now apply HdRel_inv in Hhd.
    + constructor; [now constructor|]. constructor.
      destruct (leb_total x y) as [H|H]; [exact H | congruence].
Qed.

Lemma sort_by_sorted (l : list A) :
  Sorted (fun a b => leb a b = true) (Pandas.sort_by leb l).
Proof.
  unfold Pandas.sort_by. induction (rev l) as [|x tl IH]; simpl.
  - constructor.
  - now apply insert_by_sorted.
Qed.
End SortedFacts.

Lemma Sorted_map {A B : Type} (R : A -> A -> Prop) (R' : B -> B -> Prop)
    (f : A -> B) (l : list A) :
  (forall a b, R a b -> R' (f a) (f b)) ->
  Sorted R l -> Sorted R' (map f l).
Proof.
  intros Hf. induction 1 as [|a l Hs IH Hhd]; simpl; constructor; [exact IH|].
  destruct Hhd; simpl; constructor. now apply Hf.
Qed.

(** X13.  The order of the categories.  In the pie for "ALL" the sites come
    in ascending order of their names (the group keys are sorted); in the
    pie of a concrete site the counts come in descending order (the most
    frequent outcome first). *)
Theorem pie_category_order (g : Globals) :
  (exists site_names,
     pie_labels (update_pie_chart g ALL) = map Some site_names /\
     Sorted (fun a b => (a <=? b) = true) site_names) /\
  (forall site, site <> ALL ->
     Sorted (fun a b => b <= a) (pie_values (update_pie_chart g site))).
Proof.
  split.
  - eexists. split; [apply pie_labels_all|].
    unfold Pandas.groupby_size. rewrite map_map. simpl. rewrite map_id.
    apply sort_by_sorted. apply String.leb_total.
  - intros site Hne. rewrite (pie_values_site g site Hne).
    unfold Pandas.value_counts.
    apply (Sorted_map (fun a b : Z * nat => (snd b <=? snd a)%nat = true)).
    + intros a b H. now apply Nat.leb_le.
    + apply sort_by_sorted. intros a b.
      destruct (Nat.le_ge_cases (snd a) (snd b)) as [H|H];
        [right | left]; now apply Nat.leb_le.
Qed.

Lemma pie_category_order_witness :
  Sorted (fun a b => b <= a) (pie_values (update_pie_chart sample "A")).
Proof.
  destruct (pie_category_order sample) as [_ Hsite].
  apply Hsite. discriminate.
Defined.

(** * The callbacks under the dispatch of the runtime *)

Lemma load_in_sync (g : Globals) (c : Dash.Controls) :
  List.length (Dash.range_value c) = 2 -> in_sync g (Dash.load g c).
Proof.
  destruct c as [site payload_range]. simpl. intros Hlen.
  destruct payload_range as [|a [|b [|x tl]]]; try discriminate.
  split; reflexivity.
Qed.

Lemma step_in_sync (g : Globals) (page : Dash.Page) (ev : Dash.UserEvent) :
  Dash.two_handles ev ->
  List.length (Dash.range_value (Dash.controls page)) = 2 ->
  in_sync g page ->
  in_sync g (Dash.step g page ev) /\
  List.length (Dash.range_value (Dash.controls (Dash.step g page ev))) = 2.
Proof.
  destruct page as [[site0 range0] shown]. unfold in_sync. simpl.
  intros Hev Hlen [Hpie Hscatter].
  destruct range0 as [|a [|b [|x tl]]]; try discriminate.
  destruct ev as [site | payload_range]; simpl in Hev.
  - split; [|reflexivity]. split; reflexivity.
  - destruct payload_range as [|a' [|b' [|x' tl']]]; try discriminate.
    split; [|reflexivity]. split; [|reflexivity].
    unfold Dash.step, Dash.fire, Dash.set_graph. simpl. exact Hpie.
Qed.

(** X14.  The charts follow the controls.  After the page has loaded and
    after every later change of the dropdown or of the slider, each graph
    shows what its callback returns for the current values of the controls:
    the registered inputs are enough to keep both graphs up to date.  A
    move of the slider leaves the pie graph as it was. *)
Theorem charts_follow_controls (g : Globals) (c : Dash.Controls)
    (evs : list Dash.UserEvent) :
  List.length (Dash.range_value c) = 2 ->
  Forall Dash.two_handles evs ->
  in_sync g (Dash.run g (Dash.load g c) evs) /\
  (forall page payload_range,
     Dash.graphs (Dash.step g page (Dash.MoveSlider payload_range))
                 "success-pie-chart" =
     Dash.graphs page "success-pie-chart").
Proof.
  intros Hlen Hevs. split.
  - unfold Dash.run.
    generalize (load_in_sync g c Hlen).
    change (List.length (Dash.range_value (Dash.controls (Dash.load g c))) = 2) in Hlen.
    revert Hlen. generalize (Dash.load g c).
    induction Hevs as [|ev evs Hev _ IH]; simpl; intros page Hlen Hsync; [exact Hsync|].
    destruct (step_in_sync g page ev Hev Hlen Hsync) as [Hsync' Hlen'].
    now apply IH.
  - intros page payload_range.
    unfold Dash.step, Dash.fire. simpl.
    destruct (update_scatter_chart g _ payload_range); reflexivity.
Qed.

Lemma charts_follow_controls_witness :
  in_sync sample
    (Dash.run sample (Dash.load sample (Dash.mkControls ALL [0; 10000]%Q))
              [Dash.SelectSite "A"; Dash.MoveSlider [0; 1000]%Q]).
Proof.
  apply (charts_follow_controls sample (Dash.mkControls ALL [0; 10000]%Q)).
  - reflexivity.
  - repeat constructor.
Defined.

(** * The selector and the order of the file *)

Section UniqueOrder.
Context {A : Type}.
Variable eq_dec : forall x y : A, {x = y} + {x <> y}.

Lemma unique_snoc (l : list A) (x : A) :
  (In x l -> Pandas.unique eq_dec (l ++ [x])%list = Pandas.unique eq_dec l) /\
  (~ In x l ->
   Pandas.unique eq_dec (l ++ [x])%list = (Pandas.unique eq_dec l ++ [x])%list).
Proof.
  induction l as [|a l [IHin IHout]]; simpl.
  - split; [tauto | reflexivity].
  - split.
    + intros [Heq|Hin].
      * subst a. destruct (in_dec eq_dec x l) as [Hin|Hout].
        -- now rewrite IHin.
        -- rewrite IHout by exact Hout. rewrite filter_app. simpl.
           destruct (eq_dec x x); [|congruence]. now rewrite app_nil_r.
      * now rewrite IHin.
    + intros Hnot.
      assert (Hne : a <> x) by tauto.
      assert (Hout : ~ In x l) by tauto.
      rewrite IHout by exact Hout. rewrite filter_app. simpl.
      destruct (eq_dec a x); [contradiction | reflexivity].
Qed.
End UniqueOrder.

(** X15.  The selector lists the sites in the order of the file.  A record
    added at the end of the file leaves the options as they are when its
    site is already listed, and otherwise adds its site as the last
    option. *)
Theorem selector_follows_file_order (rows : DataFrame) (r : Row) :
  let options_of := fun df =>
    map opt_value (dd_options (site_dropdown (layout (startup df)))) in
  (In (launch_site r) (map launch_site rows) ->
   options_of (rows ++ [r])%list = options_of rows) /\
  (~ In (launch_site r) (map launch_site rows) ->
   options_of (rows ++ [r])%list = (options_of rows ++ [launch_site r])%list).
Proof.
  cbv zeta. simpl. rewrite !map_map. simpl. rewrite !map_id.
  rewrite map_app. simpl.
  destruct (unique_snoc string_dec (map launch_site rows) (launch_site r))
    as [Hin Hout].
  split; intros H.
  - now rewrite Hin.
  - now rewrite Hout.
Qed.

Lemma selector_follows_file_order_witness :
  map opt_value (dd_options (site_dropdown (layout (startup
    (three_rows ++ [mkRow "C" 4000 0 "B4"])%list)))) =
  (map opt_value (dd_options (site_dropdown (layout (startup three_rows)))) ++ ["C"])%list.
Proof.
  destruct (selector_follows_file_order three_rows (mkRow "C" 4000 0 "B4"))
    as [_ Hnew].
  apply Hnew. simpl. intros [H|[H|[H|[]]]]; discriminate.
Defined.

(** * The further theorems at the sample data set *)

Lemma scatter_range_arity_witness :
  update_scatter_chart sample ALL [0; 10; 20]%Q = Raise ValueError.
Proof.
  destruct (scatter_range_arity sample ALL [0; 10; 20]%Q) as [[_ Hraise] _].
  apply Hraise. simpl. lia.
Defined.

Lemma scatter_traces_by_booster_witness :
  exists fig,
    update_scatter_chart sample "A" [0; 10000]%Q = Ok fig /\
    In "FT" (map tr_name (sc_traces fig)).
Proof.
  destruct (scatter_traces_by_booster sample "A" 0 10000)
    as [fig [Hok [_ [Hnames _]]]].
  exists fig. split; [exact Hok|].
  apply Hnames. exists (mkRow "A" 9000 0 "FT").
  split; [simpl; right; left; reflexivity|]. split; reflexivity.
Defined.

Lemma scatter_trace_contents_witness :
  exists fig,
    update_scatter_chart sample ALL [0; 10000]%Q = Ok fig /\
    forall t, In t (sc_traces fig) ->
      tr_customdata t =
      map (fun r => [launch_site r]) (trace_rows sample ALL 0 10000 t).
Proof.
  destruct (scatter_trace_contents sample ALL 0 10000) as [fig [Hok Hall]].
  exists fig. split; [exact Hok|].
  intros t Ht. destruct (Hall t Ht) as [_ [_ Hhover]]. exact Hhover.
Defined.

Lemma scatter_interval_split_witness :
  drawn sample "A" [0; 10000]%Q (9000%Q, 0%Z).
Proof.
  apply (scatter_interval_split sample "A" 0 5000 10000).
  - unfold Qle. simpl. lia.
  - unfold Qle. simpl. lia.
  - right. eexists. split; [reflexivity|]. simpl. left. reflexivity.
Defined.
